(** * Scene search tutorial: key-frame extraction, annotation and search

    A shallow embedding of the code cells of [scenes-tutorial.ipynb]:
    [extract_key_frames], [upload_image_to_s3], [generate_caption],
    [get_embedding], [search_frames], [process_frame] and the cell that
    builds [df_frames].

    Conventions of the embedding.
    - A Python exception is a value of [exception]; a call that may raise
      returns a [result].  Code that mutates an object (the frame table, the
      decoder handles, standard output) runs in the state monad [M].
    - Python floats are modelled by the real numbers [R].  The properties
      studied here (a guard on a zero norm, ordering, lengths) are about the
      control flow around the arithmetic; none of them states the value of a
      score that floating-point arithmetic would round.
    - The services reached over the network (object store, captioning,
      embedding), the video decoder, the scene detector and the file system
      are parameters of the sections that use them; each call may fail where
      the library lets it: the constructor of the video manager and
      [os.makedirs] may raise, [cv2.imwrite] may return [False]. *)

From Stdlib Require Import List String Ascii Bool Arith ZArith Lia.
From Stdlib Require Import Reals Lra Permutation Sorted.
From Stdlib Require Import Decimal DecimalNat DecimalString.
Import ListNotations.

Local Open Scope list_scope.
Local Open Scope string_scope.

(** ** Exceptions and results *)

Inductive exception : Type :=
| KeyError (key : string)
| ValueError (msg : string)
| TypeError (msg : string)
| RuntimeError (msg : string)
| OSError (msg : string).

(** [str(e)] as used by the f-strings of the notebook. *)
Definition str_exception (e : exception) : string :=
  match e with
  | KeyError k => "'" ++ k ++ "'"
  | ValueError m | TypeError m | RuntimeError m | OSError m => m
  end.

Inductive result (A : Type) : Type :=
| Ok (a : A)
| Raise (e : exception).

Arguments Ok {A} a.
Arguments Raise {A} e.

Definition rbind {A B} (r : result A) (k : A -> result B) : result B :=
  match r with
  | Ok a => k a
  | Raise e => Raise e
  end.

Fixpoint rmap {A B} (f : A -> result B) (l : list A) : result (list B) :=
  match l with
  | [] => Ok []
  | a :: l' =>
      rbind (f a) (fun b => rbind (rmap f l') (fun bs => Ok (b :: bs)))
  end.

Definition is_ok {A} (r : result A) : bool :=
  match r with Ok _ => true | Raise _ => false end.

(** ** State and exceptions

    [M S A] is a computation over a mutable store [S] that returns an [A] or
    raises; the store survives an exception, as Python objects do. *)

Definition M (S A : Type) : Type := S -> result A * S.

Definition ret {S A} (a : A) : M S A := fun s => (Ok a, s).

Definition bind {S A B} (m : M S A) (k : A -> M S B) : M S B :=
  fun s =>
    match m s with
    | (Ok a, s') => k a s'
    | (Raise e, s') => (Raise e, s')
    end.

Definition lift {S A} (r : result A) : M S A := fun s => (r, s).

Definition get {S} : M S S := fun s => (Ok s, s).

Definition modify {S} (f : S -> S) : M S unit := fun s => (Ok tt, f s).

(** [try: body except Exception as e: handler e]. *)
Definition try_except {S A} (body : M S A) (handler : exception -> M S A)
  : M S A :=
  fun s =>
    match body s with
    | (Ok a, s') => (Ok a, s')
    | (Raise e, s') => handler e s'
    end.

Declare Scope py_scope.
Delimit Scope py_scope with py.

Notation "x <- m ;; k" := (bind m (fun x => k))
  (at level 100, m at next level, right associativity) : py_scope.
Notation "m ;;; k" := (bind m (fun _ => k))
  (at level 100, right associativity) : py_scope.

(** ** Strings

    [str(n)] for a non-negative integer, [os.path.join] with two components
    and [os.path.basename], as [posixpath] defines them. *)

Definition str_nat (n : nat) : string :=
  NilEmpty.string_of_uint (Nat.to_uint n).

Definition sep : ascii := "/"%char.

Fixpoint endswith_sep (s : string) : bool :=
  match s with
  | EmptyString => false
  | String c EmptyString => Ascii.eqb c sep
  | String _ s' => endswith_sep s'
  end.

Definition startswith_sep (s : string) : bool :=
  match s with
  | String c _ => Ascii.eqb c sep
  | EmptyString => false
  end.

Definition path_join (a b : string) : string :=
  if startswith_sep b then b
  else if (match a with EmptyString => true | _ => false end) || endswith_sep a
       then a ++ b
       else a ++ String sep b.

(** The part of the path after its last separator. *)
Fixpoint basename (p : string) : string :=
  match p with
  | EmptyString => EmptyString
  | String c p' =>
      if Ascii.eqb c sep then basename p'
      else if existsb (Ascii.eqb sep) (list_ascii_of_string p') then basename p'
      else p
  end.

(** ** Key-frame extraction

    The store of [extract_key_frames]: what was printed, which decoder
    handles are held, the position of the OpenCV capture, the directories
    made and the image files on disk (a file name has one content). *)

Record FrameTimecode : Type := { get_frames : nat }.

(** A scene of PySceneDetect is a pair (start, end) of timecodes. *)
Definition Scene : Type := (FrameTimecode * FrameTimecode)%type.

(** [os.makedirs(d, exist_ok=True)] on the directories already there, when
    it succeeds. *)
Definition dirs_with (d : string) (ds : list string) : list string :=
  if existsb (String.eqb d) ds then ds else (ds ++ [d])%list.

Section KeyFrames.

(** Decoded images. *)
Variable Image : Type.

Record World : Type := mkWorld {
  stdout : list string;
  video_manager_open : bool;
  cap_open : bool;
  cap_pos : nat;
  dirs : list string;
  files : list (string * Image)
}.

(** The content of a file, and writing a file: an existing file is
    overwritten where it is. *)
Fixpoint file_at (name : string) (fs : list (string * Image))
  : option Image :=
  match fs with
  | [] => None
  | (n, img) :: fs' => if String.eqb n name then Some img else file_at name fs'
  end.

Fixpoint write_file (name : string) (img : Image)
    (fs : list (string * Image)) : list (string * Image) :=
  match fs with
  | [] => [(name, img)]
  | (n, old) :: fs' =>
      if String.eqb n name then (n, img) :: fs'
      else (n, old) :: write_file name img fs'
  end.

(** Behaviour of the decoder and of the file system on given paths:
    whether the constructor [VideoManager([video_path])] raises (it opens the
    file, and raises on a missing or corrupt one); whether
    [video_manager.start()] raises; whether [detect_scenes] raises, and
    otherwise the list that [get_scene_list()] then returns; whether
    [os.makedirs] raises; whether the OpenCV capture opens; the frame read at
    a position, if any; and whether [cv2.imwrite] manages to write a file. *)
Variable video_manager_new : string -> result unit.
Variable video_manager_start : string -> result unit.
Variable detect_scenes : string -> result (list Scene).
Variable os_makedirs : string -> result unit.
Variable is_opened : string -> bool.
Variable frame_at : string -> nat -> option Image.
Variable imwrite_ok : string -> bool.

Definition print (line : string) : M World unit :=
  modify (fun w => mkWorld (stdout w ++ [line]) (video_manager_open w)
                           (cap_open w) (cap_pos w) (dirs w) (files w)).

(** [VideoManager([video_path])] acquires the scene-detection handle, or
    raises; [video_manager.release()] gives the handle back. *)
Definition VideoManager (video_path : string) : M World unit :=
  fun w =>
    match video_manager_new video_path with
    | Ok _ =>
        (Ok tt, mkWorld (stdout w) true
                        (cap_open w) (cap_pos w) (dirs w) (files w))
    | Raise e => (Raise e, w)
    end.

Definition video_manager_release : M World unit :=
  modify (fun w => mkWorld (stdout w) false
                           (cap_open w) (cap_pos w) (dirs w) (files w)).

(** [os.makedirs(d, exist_ok=True)] *)
Definition makedirs (d : string) : M World unit :=
  fun w =>
    match os_makedirs d with
    | Ok _ =>
        (Ok tt, mkWorld (stdout w) (video_manager_open w)
                        (cap_open w) (cap_pos w)
                        (dirs_with d (dirs w)) (files w))
    | Raise e => (Raise e, w)
    end.

(** [cv2.VideoCapture(video_path)] followed by [cap.isOpened()]: the
    capture holds a decoder exactly when it could be opened. *)
Definition VideoCapture (video_path : string) : M World bool :=
  fun w => (Ok (is_opened video_path),
            mkWorld (stdout w) (video_manager_open w)
                    (is_opened video_path) 0 (dirs w) (files w)).

Definition cap_set_pos_frames (n : nat) : M World unit :=
  modify (fun w => mkWorld (stdout w) (video_manager_open w)
                           (cap_open w) n (dirs w) (files w)).

(** [ret, frame = cap.read()]: [None] stands for [ret = False]. *)
Definition cap_read (video_path : string) : M World (option Image) :=
  fun w =>
    match frame_at video_path (cap_pos w) with
    | Some img =>
        (Ok (Some img),
         mkWorld (stdout w) (video_manager_open w) (cap_open w)
                 (S (cap_pos w)) (dirs w) (files w))
    | None => (Ok None, w)
    end.

Definition cap_release : M World unit :=
  modify (fun w => mkWorld (stdout w) (video_manager_open w)
                           false (cap_pos w) (dirs w) (files w)).

(** [cv2.imwrite(filename, img)]: the file is written, over an older one of
    that name, and [True] is returned; or nothing is written and [False] is
    returned. *)
Definition imwrite (filename : string) (img : Image) : M World bool :=
  fun w =>
    if imwrite_ok filename then
      (Ok true, mkWorld (stdout w) (video_manager_open w)
                        (cap_open w) (cap_pos w) (dirs w)
                        (write_file filename img (files w)))
    else (Ok false, w).

Definition enumerate {A} (l : list A) : list (nat * A) :=
  combine (seq 0 (List.length l)) l.

Definition frame_name (output_dir : string) (i : nat) : string :=
  path_join output_dir ("frame_" ++ str_nat i ++ ".jpg").

(** The body of [for i, scene in enumerate(scene_list)].  The value of
    [cv2.imwrite] is not looked at. *)
Fixpoint save_first_frames (video_path output_dir : string)
    (total_scenes : nat) (scenes : list (nat * Scene))
    (frame_list : list string) : M World (list string) :=
  match scenes with
  | [] => ret frame_list
  | (i, scene) :: rest =>
      (print ("Processing scene " ++ str_nat (i + 1) ++ "/"
              ++ str_nat total_scenes) ;;;
       let start_timecode := fst scene in
       let start_frame := get_frames start_timecode in
       cap_set_pos_frames start_frame ;;;
       r <- cap_read video_path ;;
       match r with
       | Some frame =>
           let frame_filename := frame_name output_dir i in
           imwrite frame_filename frame ;;;
           save_first_frames video_path output_dir total_scenes rest
                             (frame_list ++ [frame_filename])
       | None =>
           print ("Failed to read frame at position "
                  ++ str_nat start_frame) ;;;
           save_first_frames video_path output_dir total_scenes rest
                             frame_list
       end)%py
  end.

(** The [try] block: [None] is the [return []] of the handler. *)
Definition detect (video_path : string) : M World (option (list Scene)) :=
  try_except
    (lift (video_manager_start video_path) ;;;
     scene_list <- lift (detect_scenes video_path) ;;
     ret (Some scene_list))%py
    (fun e =>
       print ("Error during scene detection: " ++ str_exception e) ;;;
       ret None)%py.

Definition extract_key_frames (video_path output_dir : string)
  : M World (list string) :=
  (VideoManager video_path ;;;
   detected <- detect video_path ;;
   match detected with
   | None => ret []
   | Some scene_list =>
       match scene_list with
       | [] =>
           print "No scenes were detected in the video." ;;;
           ret []
       | _ :: _ =>
           print ("Detected " ++ str_nat (List.length scene_list)
                  ++ " scenes in video.") ;;;
           makedirs output_dir ;;;
           opened <- VideoCapture video_path ;;
           if negb opened then
             print ("Failed to open video file " ++ video_path) ;;;
             ret []
           else
             let total_scenes := List.length scene_list in
             frame_list <- save_first_frames video_path output_dir
                             total_scenes (enumerate scene_list) [] ;;
             cap_release ;;;
             video_manager_release ;;;
             ret frame_list
       end
   end)%py.

End KeyFrames.

Arguments mkWorld {Image}.
Arguments stdout {Image} w.
Arguments video_manager_open {Image} w.
Arguments cap_open {Image} w.
Arguments cap_pos {Image} w.
Arguments dirs {Image} w.
Arguments files {Image} w.
Arguments file_at {Image} name fs.
Arguments write_file {Image} name img fs.

(** ** Cosine similarity

    [sklearn.metrics.pairwise.cosine_similarity] on two matrices of one row
    each, the only shape [search_frames] builds with [reshape(1, -1)]: both
    rows are validated, L2-normalised by [normalize], and multiplied.  A norm
    that [_handle_zeros_in_scale] finds below ten machine epsilons (a zero
    norm in particular) is replaced by one before the division. *)

Definition dot (x y : list R) : R :=
  fold_right Rplus 0%R (map (fun p => (fst p * snd p)%R) (combine x y)).

Definition row_norms (x : list R) : R := sqrt (dot x x).

Definition eps : R := (/ 2 ^ 52)%R.

Definition handle_zeros_in_scale (scale : R) : R :=
  if Rlt_dec scale (10 * eps) then 1%R else scale.

Definition normalize (x : list R) : list R :=
  let norms := handle_zeros_in_scale (row_norms x) in
  map (fun v => (v / norms)%R) x.

Definition cosine_similarity (x y : list R) : result R :=
  if (List.length x =? 0)%nat || (List.length y =? 0)%nat then
    Raise (ValueError "Found array with 0 feature(s) (shape=(1, 0)) while a minimum of 1 is required by check_pairwise_arrays.")
  else if negb (List.length x =? List.length y)%nat then
    Raise (ValueError ("Incompatible dimension for X and Y matrices: X.shape[1] == "
                       ++ str_nat (List.length x) ++ " while Y.shape[1] == "
                       ++ str_nat (List.length y)))
  else Ok (dot (normalize x) (normalize y)).

(** ** The frame table

    A pandas [DataFrame] as the notebook uses it: an index of row labels and
    named columns of cells, in column order.  A cell holds a string, a list
    of floats (an embedding) or a float (a similarity). *)

Inductive value : Type :=
| VStr (s : string)
| VList (xs : list R)
| VFloat (r : R).

Record Series : Type := mkSeries {
  s_index : list nat;
  s_values : list value
}.

Record DataFrame : Type := mkDataFrame {
  index : list nat;
  columns : list (string * list value)
}.

Fixpoint lookup (key : string) (cols : list (string * list value))
  : option (list value) :=
  match cols with
  | [] => None
  | (k, vs) :: cols' => if String.eqb k key then Some vs else lookup key cols'
  end.

(** [df[key]] *)
Definition getitem (df : DataFrame) (key : string) : result Series :=
  match lookup key (columns df) with
  | Some vs => Ok (mkSeries (index df) vs)
  | None => Raise (KeyError key)
  end.

(** [series.apply(f)] *)
Definition Series_apply (f : value -> result value) (s : Series)
  : result Series :=
  rbind (rmap f (s_values s)) (fun vs => Ok (mkSeries (s_index s) vs)).

Fixpoint set_column (key : string) (vs : list value)
    (cols : list (string * list value)) : list (string * list value) :=
  match cols with
  | [] => [(key, vs)]
  | (k, old) :: cols' =>
      if String.eqb k key then (k, vs) :: cols'
      else (k, old) :: set_column key vs cols'
  end.

(** [df[key] = series], for a series that carries the index of [df] (the
    only assignment of the notebook): the column is replaced where it is, or
    added as the last one.  The frame object itself is updated. *)
Definition setitem (key : string) (s : Series) : M DataFrame unit :=
  modify (fun df => mkDataFrame (index df) (set_column key (s_values s) (columns df))).

Definition nrows (df : DataFrame) : nat := List.length (index df).

(** [df.take(indexer)]: the rows at the given positions, in that order. *)
Definition take (df : DataFrame) (indexer : list nat) : DataFrame :=
  mkDataFrame
    (map (fun p => nth p (index df) 0%nat) indexer)
    (map (fun c => (fst c, map (fun p => nth p (snd c) (VStr "")) indexer))
         (columns df)).

(** [df.head(n)]: the first [n] rows, or all but the last [-n] rows. *)
Definition head (df : DataFrame) (n : Z) : DataFrame :=
  let k := if (0 <=? n)%Z then Z.to_nat n
           else (nrows df - Z.to_nat (- n))%nat in
  mkDataFrame (firstn k (index df))
              (map (fun c => (fst c, firstn k (snd c))) (columns df)).

Definition as_float (v : value) : result R :=
  match v with
  | VFloat r => Ok r
  | _ => Raise (TypeError "unorderable column")
  end.

(** [numpy.argsort(kind='quicksort')], the sort that [sort_values] uses when
    no [kind] is given: the positions of the array in ascending order of its
    values.  pandas and numpy document only [mergesort] and [stable] as
    stable sorts, so the order in which the positions of equal values come
    out is left open: the sort is known by this contract alone. *)
Class ArgSort : Type := {
  argsort : list R -> list nat;
  argsort_perm : forall a, Permutation (argsort a) (seq 0 (List.length a));
  argsort_sorted :
    forall a, Sorted Rle (map (fun p => nth p a 0%R) (argsort a))
}.

Section Sorting.

Context {sorter : ArgSort}.

(** [pandas.core.sorting.nargsort(items, ascending=False)] on an array
    without missing values: for a descending sort the array is reversed,
    sorted in ascending order, and the positions found are reversed. *)
Definition nargsort_descending (items : list R) : list nat :=
  let idx := seq 0 (List.length items) in
  let nonnan := List.rev items in
  let nonnan_idx := List.rev idx in
  let indexer := map (fun p => nth p nonnan_idx 0%nat) (argsort nonnan) in
  List.rev indexer.

(** [df.sort_values(by, ascending=False)]: a new frame. *)
Definition sort_values_descending (df : DataFrame) (by_ : string)
  : result DataFrame :=
  match lookup by_ (columns df) with
  | None => Raise (KeyError by_)
  | Some k =>
      rbind (rmap as_float k)
            (fun keys => Ok (take df (nargsort_descending keys)))
  end.

End Sorting.

(** ** Embedding, search and annotation *)

(** The dictionary that [process_frame] returns. *)
Record FrameData : Type := mkFrameData {
  frame_filename : string;
  image_url : string;
  caption : string;
  embedding : list R
}.

(** [pd.DataFrame(frame_data_list)] on the dictionaries of [process_frame]:
    the columns are the keys of the dictionaries, so a list without
    dictionaries gives a frame without columns. *)
Definition DataFrame_of_records (l : list FrameData) : DataFrame :=
  match l with
  | [] => mkDataFrame [] []
  | _ :: _ =>
      mkDataFrame (seq 0 (List.length l))
        [ ("frame_filename", map (fun d => VStr (frame_filename d)) l);
          ("image_url", map (fun d => VStr (image_url d)) l);
          ("caption", map (fun d => VStr (caption d)) l);
          ("embedding", map (fun d => VList (embedding d)) l) ]
  end.

Section Pipeline.

(** The external services.  [embeddings_create model input] and
    [chat_completions_create model image_url] stand for the OpenAI calls
    with the fixed request fields of the notebook, followed by the
    selection of the first answer; [s3_upload_file path bucket key] is the
    object-store upload. *)
Variable embeddings_create : string -> string -> result (list R).
Variable chat_completions_create : string -> string -> result string.
Variable s3_upload_file : string -> string -> string -> result unit.
Variable s3_bucket_name : string.
Variable s3_region : string.

Context {sorter : ArgSort}.

Definition get_embedding (value : string) : result (list R) :=
  embeddings_create "text-embedding-3-large" value.

Definition generate_caption (image_url : string) : result string :=
  chat_completions_create "gpt-4o-mini" image_url.

Definition upload_image_to_s3 (image_path s3_bucket s3_folder : string)
  : result string :=
  let file_name := basename image_path in
  let s3_key := s3_folder ++ "/" ++ file_name in
  rbind (s3_upload_file image_path s3_bucket s3_key) (fun _ =>
  let image_url := "https://" ++ s3_bucket ++ ".s3." ++ s3_region
                   ++ ".amazonaws.com/" ++ s3_key in
  Ok image_url).

(** [np.array(x).reshape(1, -1)], then the validation of scikit-learn,
    which refuses a cell that is not numeric. *)
Definition as_row (x : value) : result (list R) :=
  match x with
  | VList xs => Ok xs
  | VFloat r => Ok [r]
  | VStr _ => Raise (ValueError "could not convert string to float")
  end.

(** The [lambda x: cosine_similarity(...)[0][0]] of [search_frames]. *)
Definition similarity_to (prompt_embedding : list R) (x : value)
  : result value :=
  rbind (as_row x) (fun row =>
  rbind (cosine_similarity row prompt_embedding) (fun s =>
  Ok (VFloat s))).

(** [search_frames(prompt, df_frames, top_n)].  The store is the frame
    object bound to [df_frames], which the assignment of the [similarity]
    column updates; the value returned is the new frame [results]. *)
Definition search_frames (prompt : string) (top_n : Z)
  : M DataFrame DataFrame :=
  (prompt_embedding <- lift (get_embedding prompt) ;;
   df_frames <- get ;;
   column <- lift (getitem df_frames "embedding") ;;
   similarity <- lift (Series_apply (similarity_to prompt_embedding) column) ;;
   setitem "similarity" similarity ;;;
   df_frames <- get ;;
   sorted <- lift (sort_values_descending df_frames "similarity") ;;
   let results := head sorted top_n in
   ret results)%py.

Definition process_frame (frame_filename : string) : result FrameData :=
  rbind (upload_image_to_s3 frame_filename s3_bucket_name "frames")
        (fun image_url =>
  rbind (generate_caption image_url) (fun caption =>
  rbind (get_embedding caption) (fun embedding =>
  Ok (mkFrameData frame_filename image_url caption embedding)))).

(** [list(executor.map(process_frame, frame_list))]: the results are
    read in the order of submission, and reading the result of a call that
    raised raises its exception again.  The services are functions of their
    arguments, so the outcome does not depend on how the worker threads
    interleave. *)
Definition executor_map_list (frame_list : list string)
  : result (list FrameData) :=
  rmap process_frame frame_list.

(** The global variables that the annotation cell assigns. *)
Record Globals : Type := mkGlobals {
  frame_data_list : list FrameData;
  df_frames : option DataFrame
}.

(** The cell "Process frames in parallel": [frame_data_list = []], the
    [with] block, then [df_frames = pd.DataFrame(frame_data_list)]. *)
Definition annotation_cell (frame_list : list string) : M Globals unit :=
  (modify (fun g => mkGlobals [] (df_frames g)) ;;;
   results <- lift (executor_map_list frame_list) ;;
   modify (fun g => mkGlobals results (df_frames g)) ;;;
   g <- get ;;
   modify (fun g' => mkGlobals (frame_data_list g')
                       (Some (DataFrame_of_records (frame_data_list g)))))%py.

End Pipeline.

(** ** numpy's argsort on a CPU with AVX-512

    On such a CPU [numpy.argsort(kind='quicksort')] of 64-bit keys runs the
    vectorised sort of x86-simd-sort.  An array of at most eight keys is
    sorted in one register of eight lanes ([argsort_8_64bit]): the keys are
    gathered with their positions, the lanes beyond the array are filled with
    the largest value of the type and the position 0, and a bitonic network
    of six compare-and-exchange stages ([sort_zmm_64bit]) orders the lanes.
    In a stage every lane is compared with its partner ([cmp_merge]): it
    takes the smaller or the larger of the two keys, as the mask of the stage
    says, and keeps its own position exactly when the key it takes equals
    the key it had. *)

Section SimdSort.

Variable K : Type.
Variable leb : K -> K -> bool.

(** The key of a lane ([None] is [zmm_max], the largest value of the type)
    and the position the key came from. *)
Definition lane : Type := (option K * nat)%type.

Definition zmm_max : option K := None.

Definition key_leb (a b : option K) : bool :=
  match a, b with
  | _, None => true
  | None, Some _ => false
  | Some x, Some y => leb x y
  end.

Definition key_min (a b : option K) : option K :=
  if key_leb a b then a else b.

Definition key_max (a b : option K) : option K :=
  if key_leb a b then b else a.

Definition key_eqb (a b : option K) : bool := key_leb a b && key_leb b a.

Definition cmp_merge (take_max : bool) (in1 in2 : lane) : lane :=
  let tmp_keys :=
    if take_max then key_max (fst in2) (fst in1)
    else key_min (fst in2) (fst in1) in
  (tmp_keys, if key_eqb tmp_keys (fst in1) then snd in1 else snd in2).

(** One stage: lane [i] meets lane [perm i]; [mask] tells the lanes that
    take the larger key. *)
Definition exchange (perm : list nat) (mask : list bool) (zmm : list lane)
  : list lane :=
  map (fun i => cmp_merge (nth i mask false)
                          (nth i zmm (zmm_max, 0))
                          (nth (nth i perm 0) zmm (zmm_max, 0)))
      (seq 0 8).

(** The partner of each lane, lane 0 first: the shuffle of neighbours and
    the three permutations of the network. *)
Definition SHUFFLE_1_1_1_1 : list nat := [1; 0; 3; 2; 5; 4; 7; 6].
Definition NETWORK_64BIT_1 : list nat := [3; 2; 1; 0; 7; 6; 5; 4].
Definition NETWORK_64BIT_2 : list nat := [7; 6; 5; 4; 3; 2; 1; 0].
Definition NETWORK_64BIT_3 : list nat := [2; 3; 0; 1; 6; 7; 4; 5].

(** The masks [0xAA], [0xCC] and [0xF0], lane 0 first. *)
Definition mask_AA : list bool :=
  [false; true; false; true; false; true; false; true].
Definition mask_CC : list bool :=
  [false; false; true; true; false; false; true; true].
Definition mask_F0 : list bool :=
  [false; false; false; false; true; true; true; true].

Definition sort_zmm_64bit (zmm : list lane) : list lane :=
  let zmm := exchange SHUFFLE_1_1_1_1 mask_AA zmm in
  let zmm := exchange NETWORK_64BIT_1 mask_CC zmm in
  let zmm := exchange SHUFFLE_1_1_1_1 mask_AA zmm in
  let zmm := exchange NETWORK_64BIT_2 mask_F0 zmm in
  let zmm := exchange NETWORK_64BIT_3 mask_CC zmm in
  let zmm := exchange SHUFFLE_1_1_1_1 mask_AA zmm in
  zmm.

(** The masked load of the positions 0, 1, ... and the gather of their
    keys. *)
Definition gather (arr : list K) : list lane :=
  map (fun i => match nth_error arr i with
                | Some k => (Some k, i)
                | None => (zmm_max, 0)
                end)
      (seq 0 8).

(** The positions stored back: those of the first [N] lanes. *)
Definition argsort_8_64bit (arr : list K) : list nat :=
  firstn (List.length arr) (map snd (sort_zmm_64bit (gather arr))).

(** Whether [arg] lists the positions below [n], and whether a list of keys
    is in ascending order. *)
Definition positions_b (n : nat) (arg : list nat) : bool :=
  (List.length arg =? n)%nat
  && forallb (fun i => existsb (Nat.eqb i) arg) (seq 0 n).

Fixpoint ascending_b (l : list K) : bool :=
  match l with
  | [] => true
  | a :: l' =>
      match l' with
      | [] => true
      | b :: _ => leb a b && ascending_b l'
      end
  end.

(** Whether the network applies to [arr] and has put its positions in
    ascending order of the keys. *)
Definition argsort_8_64bit_sorts (d : K) (arr : list K) : bool :=
  let arg := argsort_8_64bit arr in
  (List.length arr <=? 8)%nat
  && positions_b (List.length arr) arg
  && ascending_b (map (fun p => nth p arr d) arg).

(** The vectorised argsort on an array of at most eight keys.  A longer
    array goes through further merging passes of the same kind, which are
    not modelled: [other] stands for them.  The result of the network is
    used once it is seen to list the positions in ascending order of the
    keys, so that the contract of [ArgSort] needs no proof about the
    network. *)
Definition avx512_argsort (d : K) (other : list K -> list nat)
    (arr : list K) : list nat :=
  if argsort_8_64bit_sorts d arr then argsort_8_64bit arr else other arr.

End SimdSort.

Arguments zmm_max {K}.
Arguments key_leb {K} leb a b.
Arguments key_min {K} leb a b.
Arguments key_max {K} leb a b.
Arguments key_eqb {K} leb a b.
Arguments cmp_merge {K} leb take_max in1 in2.
Arguments exchange {K} leb perm mask zmm.
Arguments sort_zmm_64bit {K} leb zmm.
Arguments gather {K} arr.
Arguments argsort_8_64bit {K} leb arr.
Arguments ascending_b {K} leb l.
Arguments argsort_8_64bit_sorts {K} leb d arr.
Arguments avx512_argsort {K} leb d other arr.

(** ** Sorts that meet the contract of [ArgSort]

    An insertion sort of the (value, position) pairs, read from the right.
    [before a b] tells whether a new value [a] goes in front of a value [b]
    already placed.  With [a <= b] equal values keep their order: the sort is
    stable. *)

Section InsertionSort.

Variable before : R -> R -> bool.

Fixpoint insert (x : R * nat) (l : list (R * nat)) : list (R * nat) :=
  match l with
  | [] => [x]
  | y :: l' => if before (fst x) (fst y) then x :: l else y :: insert x l'
  end.

Fixpoint isort (l : list (R * nat)) : list (R * nat) :=
  match l with
  | [] => []
  | x :: l' => insert x (isort l')
  end.

Definition insertion_argsort (a : list R) : list nat :=
  map snd (isort (combine a (seq 0 (List.length a)))).

Hypothesis before_le : forall a b, before a b = true -> (a <= b)%R.
Hypothesis not_before_ge : forall a b, before a b = false -> (b <= a)%R.

Definition key_le (p q : R * nat) : Prop := (fst p <= fst q)%R.

Lemma insert_perm x l : Permutation (insert x l) (x :: l).
Proof.
  induction l as [|y l IH]; simpl.
  - apply Permutation_refl.
  - destruct (before (fst x) (fst y)).
    + apply Permutation_refl.
    + eapply perm_trans; [apply perm_skip, IH | apply perm_swap].
Qed.

Lemma isort_perm l : Permutation (isort l) l.
Proof.
  induction l as [|x l IH]; simpl.
  - constructor.
  - eapply perm_trans; [apply insert_perm | now apply perm_skip].
Qed.

Lemma insert_hdrel x y l :
  key_le y x -> HdRel key_le y l -> HdRel key_le y (insert x l).
Proof.
  intros Hyx Hl. destruct l as [|z l]; simpl.
  - now constructor.
  - destruct (before (fst x) (fst z)); constructor; auto.
    now inversion Hl.
Qed.

Lemma insert_sorted x l : Sorted key_le l -> Sorted key_le (insert x l).
Proof.
  induction 1 as [|y l Hs IH Hd]; simpl.
  - repeat constructor.
  - destruct (before (fst x) (fst y)) eqn:E.
    + constructor.
      * now constructor.
      * constructor. now apply before_le.
    + constructor; [exact IH|].
      apply insert_hdrel; [|exact Hd].
      now apply not_before_ge.
Qed.

Lemma isort_sorted l : Sorted key_le (isort l).
Proof.
  induction l as [|x l IH]; simpl; [constructor | now apply insert_sorted].
Qed.

Lemma sorted_map_fst l : Sorted key_le l -> Sorted Rle (map fst l).
Proof.
  induction 1 as [|y l Hs IH Hd]; simpl; constructor; auto.
  destruct Hd; simpl; constructor; assumption.
Qed.

Lemma combine_seq_keys (a : list R) :
  Forall (fun p => nth (snd p) a 0%R = fst p)
         (combine a (seq 0 (List.length a))).
Proof.
  apply Forall_forall. intros [k i] Hin.
  destruct (In_nth _ _ (0%R, 0%nat) Hin) as [n [Hn Hnth]].
  rewrite length_combine, length_seq, Nat.min_id in Hn.
  rewrite combine_nth in Hnth by now rewrite length_seq.
  rewrite seq_nth in Hnth by assumption.
  inversion Hnth; subst. reflexivity.
Qed.

Lemma map_snd_combine_seq (a : list R) :
  map snd (combine a (seq 0 (List.length a))) = seq 0 (List.length a).
Proof.
  generalize 0%nat. induction a as [|x a IH]; intros s; simpl.
  - reflexivity.
  - now rewrite IH.
Qed.

Lemma insertion_argsort_perm a :
  Permutation (insertion_argsort a) (seq 0 (List.length a)).
Proof.
  unfold insertion_argsort.
  rewrite <- (map_snd_combine_seq a) at 2.
  apply Permutation_map, isort_perm.
Qed.

Lemma insertion_argsort_sorted a :
  Sorted Rle (map (fun p => nth p a 0%R) (insertion_argsort a)).
Proof.
  unfold insertion_argsort. rewrite map_map.
  assert (H : Forall (fun p => nth (snd p) a 0%R = fst p)
                     (isort (combine a (seq 0 (List.length a))))).
  { eapply Permutation_Forall; [|apply combine_seq_keys].
    apply Permutation_sym, isort_perm. }
  rewrite (map_ext_Forall _ _ H).
  apply sorted_map_fst, isort_sorted.
Qed.

End InsertionSort.

Definition Rleb (a b : R) : bool := if Rle_dec a b then true else false.

Lemma Rleb_le a b : Rleb a b = true -> (a <= b)%R.
Proof. unfold Rleb. destruct (Rle_dec a b); [auto | discriminate]. Qed.

Lemma Rleb_ge a b : Rleb a b = false -> (b <= a)%R.
Proof. unfold Rleb. destruct (Rle_dec a b); [discriminate | lra]. Qed.

(** A stable sort. *)
Definition stable_sorter : ArgSort :=
  Build_ArgSort (insertion_argsort Rleb)
                (insertion_argsort_perm Rleb)
                (insertion_argsort_sorted Rleb Rleb_le Rleb_ge).

Lemma positions_b_perm n arg :
  positions_b n arg = true -> Permutation arg (seq 0 n).
Proof.
  unfold positions_b. intros H.
  apply andb_prop in H. destruct H as [Hlen Hall].
  apply Nat.eqb_eq in Hlen.
  apply Permutation_sym, NoDup_Permutation_bis.
  - apply seq_NoDup.
  - rewrite length_seq. lia.
  - intros i Hi.
    pose proof (proj1 (forallb_forall _ _) Hall i Hi) as Hex.
    apply existsb_exists in Hex. destruct Hex as [j [Hj Hij]].
    apply Nat.eqb_eq in Hij. now subst j.
Qed.

Lemma ascending_b_sorted l : ascending_b Rleb l = true -> Sorted Rle l.
Proof.
  induction l as [|a l IH]; [constructor|].
  destruct l as [|b l]; [repeat constructor|].
  intros H. change (Rleb a b && ascending_b Rleb (b :: l) = true) in H.
  apply andb_prop in H. destruct H as [Hab Hl].
  constructor; [now apply IH|]. constructor. now apply Rleb_le.
Qed.

Lemma avx512_argsort_perm a :
  Permutation (avx512_argsort Rleb 0%R (insertion_argsort Rleb) a)
              (seq 0 (List.length a)).
Proof.
  unfold avx512_argsort.
  destruct (argsort_8_64bit_sorts Rleb 0%R a) eqn:E.
  - unfold argsort_8_64bit_sorts in E. cbv zeta in E.
    apply andb_prop in E. destruct E as [E _].
    apply andb_prop in E. destruct E as [_ E].
    now apply positions_b_perm.
  - apply insertion_argsort_perm.
Qed.

Lemma avx512_argsort_sorted a :
  Sorted Rle (map (fun p => nth p a 0%R)
                  (avx512_argsort Rleb 0%R (insertion_argsort Rleb) a)).
Proof.
  unfold avx512_argsort.
  destruct (argsort_8_64bit_sorts Rleb 0%R a) eqn:E.
  - unfold argsort_8_64bit_sorts in E. cbv zeta in E.
    apply andb_prop in E. destruct E as [_ E].
    now apply ascending_b_sorted.
  - apply (insertion_argsort_sorted Rleb Rleb_le Rleb_ge).
Qed.

(** numpy's quicksort on a CPU with AVX-512, for arrays of at most eight
    keys. *)
Definition avx512_sorter : ArgSort :=
  Build_ArgSort (avx512_argsort Rleb 0%R (insertion_argsort Rleb))
                avx512_argsort_perm avx512_argsort_sorted.

(** The network looks at the keys through [leb] alone: keys of another
    type that compare in the same way are sorted in the same way. *)
Section SimdSortTransfer.

Variables K K' : Type.
Variable leb : K -> K -> bool.
Variable leb' : K' -> K' -> bool.
Variable f : K -> K'.
Hypothesis leb_f : forall a b, leb' (f a) (f b) = leb a b.

Definition lane_map (v : lane K) : lane K' := (option_map f (fst v), snd v).

Lemma key_leb_map a b :
  key_leb leb' (option_map f a) (option_map f b) = key_leb leb a b.
Proof. destruct a, b; simpl; auto. Qed.

Lemma cmp_merge_map m a b :
  cmp_merge leb' m (lane_map a) (lane_map b) = lane_map (cmp_merge leb m a b).
Proof.
  destruct a as [ka ia], b as [kb ib].
  unfold cmp_merge, lane_map, key_max, key_min, key_eqb. cbn [fst snd].
  rewrite !key_leb_map.
  destruct m; destruct (key_leb leb kb ka) eqn:E; cbn [fst snd];
    rewrite !key_leb_map; reflexivity.
Qed.

Lemma exchange_map perm mask zmm :
  exchange leb' perm mask (map lane_map zmm)
  = map lane_map (exchange leb perm mask zmm).
Proof.
  unfold exchange. rewrite map_map. apply map_ext. intros i.
  change (@zmm_max K', 0) with (lane_map (@zmm_max K, 0)).
  now rewrite !map_nth, cmp_merge_map.
Qed.

Lemma gather_map arr : gather (map f arr) = map lane_map (gather arr).
Proof.
  unfold gather. rewrite map_map. apply map_ext. intros i.
  rewrite nth_error_map. now destruct (nth_error arr i).
Qed.

Lemma argsort_8_64bit_map arr :
  argsort_8_64bit leb' (map f arr) = argsort_8_64bit leb arr.
Proof.
  unfold argsort_8_64bit, sort_zmm_64bit. cbv zeta.
  rewrite gather_map, !exchange_map, length_map, map_map.
  reflexivity.
Qed.

Lemma ascending_b_map l : ascending_b leb' (map f l) = ascending_b leb l.
Proof.
  induction l as [|a l IH]; [reflexivity|].
  destruct l as [|b l]; [reflexivity|].
  change (leb' (f a) (f b) && ascending_b leb' (map f (b :: l))
          = leb a b && ascending_b leb (b :: l)).
  now rewrite IH, leb_f.
Qed.

Lemma argsort_8_64bit_sorts_map d arr :
  argsort_8_64bit_sorts leb' (f d) (map f arr)
  = argsort_8_64bit_sorts leb d arr.
Proof.
  unfold argsort_8_64bit_sorts. cbv zeta.
  rewrite argsort_8_64bit_map, length_map.
  assert (E : map (fun p => nth p (map f arr) (f d)) (argsort_8_64bit leb arr)
              = map f (map (fun p => nth p arr d) (argsort_8_64bit leb arr))).
  { rewrite map_map. apply map_ext. intros p. apply map_nth. }
  now rewrite E, ascending_b_map.
Qed.

Lemma avx512_argsort_map d other arr :
  argsort_8_64bit_sorts leb d arr = true ->
  avx512_argsort leb' (f d) other (map f arr) = argsort_8_64bit leb arr.
Proof.
  intros H. unfold avx512_argsort.
  now rewrite argsort_8_64bit_sorts_map, H, argsort_8_64bit_map.
Qed.

End SimdSortTransfer.

(** * Properties *)

(** ** Cosine similarity and the zero vector *)

Lemma eps_pos : (0 < 10 * eps)%R.
Proof.
  unfold eps. apply Rmult_lt_0_compat; [lra|].
  apply Rinv_0_lt_compat, pow_lt. lra.
Qed.

Lemma handle_zeros_in_scale_0 : handle_zeros_in_scale 0 = 1%R.
Proof.
  unfold handle_zeros_in_scale.
  destruct (Rlt_dec 0 (10 * eps)) as [_|H]; [reflexivity|].
  destruct (H eps_pos).
Qed.

Lemma handle_zeros_in_scale_nonzero scale :
  handle_zeros_in_scale scale <> 0%R.
Proof.
  unfold handle_zeros_in_scale.
  destruct (Rlt_dec scale (10 * eps)) as [_|H]; [lra|].
  intros ->. apply H, eps_pos.
Qed.

Definition zero_vector (x : list R) : Prop := Forall (fun v => v = 0%R) x.

Lemma dot_zero_l x y : zero_vector x -> dot x y = 0%R.
Proof.
  unfold dot. intros Hx. revert y.
  induction Hx as [|v x Hv Hx IH]; intros [|w y]; simpl; try reflexivity.
  rewrite IH, Hv. lra.
Qed.

Lemma row_norms_zero x : zero_vector x -> row_norms x = 0%R.
Proof.
  intros Hx. unfold row_norms. rewrite dot_zero_l by assumption.
  apply sqrt_0.
Qed.

Lemma normalize_zero x : zero_vector x -> zero_vector (normalize x).
Proof.
  intros Hx. unfold normalize, zero_vector.
  apply Forall_map. eapply Forall_impl; [|exact Hx].
  simpl. intros v ->. unfold Rdiv. apply Rmult_0_l.
Qed.

Lemma cosine_similarity_ok x y :
  x <> [] -> List.length x = List.length y ->
  cosine_similarity x y = Ok (dot (normalize x) (normalize y)).
Proof.
  intros Hx Hlen. unfold cosine_similarity.
  rewrite <- Hlen, Nat.eqb_refl.
  destruct x as [|v x]; [congruence | reflexivity].
Qed.

(** C9. A stored embedding that is the zero vector has similarity 0 with
    every query embedding of its dimension: the norm by which
    [cosine_similarity] divides is replaced by 1 when it is zero, no divisor
    is ever zero, and the call returns instead of raising. *)
Theorem zero_embedding_similarity (e q : list R) :
  zero_vector e -> e <> [] -> List.length e = List.length q ->
  handle_zeros_in_scale (row_norms e) = 1%R /\
  handle_zeros_in_scale (row_norms q) <> 0%R /\
  similarity_to q (VList e) = Ok (VFloat 0).
Proof.
  intros Hz Hne Hlen. split; [|split].
  - rewrite row_norms_zero by assumption. apply handle_zeros_in_scale_0.
  - apply handle_zeros_in_scale_nonzero.
  - unfold similarity_to. simpl.
    rewrite cosine_similarity_ok by assumption. simpl.
    rewrite dot_zero_l; [reflexivity|].
    now apply normalize_zero.
Qed.

Lemma zero_embedding_similarity_witness :
  similarity_to [1; 2]%R (VList [0; 0]%R) = Ok (VFloat 0).
Proof.
  apply (zero_embedding_similarity [0; 0]%R [1; 2]%R).
  - repeat constructor.
  - discriminate.
  - reflexivity.
Defined.

(** ** Names of the frame files *)

Lemma str_nat_inj n m : str_nat n = str_nat m -> n = m.
Proof.
  unfold str_nat. intros H.
  assert (E : Some (Nat.to_uint n) = Some (Nat.to_uint m)).
  { rewrite <- !NilEmpty.usu. now rewrite H. }
  injection E as E.
  rewrite <- (Unsigned.of_to n), <- (Unsigned.of_to m). now rewrite E.
Qed.

Lemma append_inv_head (s a b : string) : s ++ a = s ++ b -> a = b.
Proof.
  induction s as [|c s IH]; simpl; intros H; [exact H|].
  injection H as H. auto.
Qed.

Lemma list_ascii_of_append (a b : string) :
  list_ascii_of_string (a ++ b)
  = (list_ascii_of_string a ++ list_ascii_of_string b)%list.
Proof. induction a as [|c a IH]; simpl; [reflexivity | now rewrite IH]. Qed.

Lemma append_inv_tail (a b t : string) : a ++ t = b ++ t -> a = b.
Proof.
  intros H. apply (f_equal list_ascii_of_string) in H.
  rewrite !list_ascii_of_append in H. apply app_inv_tail in H.
  rewrite <- (string_of_list_ascii_of_string a),
          <- (string_of_list_ascii_of_string b).
  now rewrite H.
Qed.

Lemma frame_name_inj output_dir i j :
  frame_name output_dir i = frame_name output_dir j -> i = j.
Proof.
  unfold frame_name, path_join. simpl startswith_sep. cbv iota.
  intros H. apply str_nat_inj, (append_inv_tail _ _ ".jpg").
  apply (append_inv_head "frame_").
  destruct ((match output_dir with EmptyString => true | _ => false end)
            || endswith_sep output_dir).
  - now apply append_inv_head in H.
  - apply append_inv_head in H. congruence.
Qed.

(** ** Key-frame extraction *)


Lemma file_at_write_file_other {Image} name name' (img : Image) fs :
  name <> name' ->
  file_at name' (write_file name img fs) = file_at name' fs.
Proof.
  intros Hne. induction fs as [|[n old] fs IH]; simpl.
  - destruct (String.eqb name name') eqn:E; [|reflexivity].
    apply String.eqb_eq in E. congruence.
  - destruct (String.eqb n name) eqn:E; simpl.
    + apply String.eqb_eq in E. subst n.
      destruct (String.eqb name name') eqn:E'; [|reflexivity].
      apply String.eqb_eq in E'. congruence.
    + now rewrite IH.
Qed.

Lemma enumerate_fst {A} (l : list A) :
  map fst (enumerate l) = seq 0 (List.length l).
Proof.
  unfold enumerate. generalize 0%nat.
  induction l as [|x l IH]; intros s; simpl; [reflexivity | now rewrite IH].
Qed.

Lemma enumerate_In {A} (l : list A) i x :
  In (i, x) (enumerate l) <-> nth_error l i = Some x.
Proof.
  unfold enumerate.
  assert (G : forall s, In (i, x) (combine (seq s (List.length l)) l) <->
                        s <= i /\ nth_error l (i - s) = Some x).
  { induction l as [|y l IH]; intros s; simpl.
    - split; [intros [] | intros [_ H]]. now destruct (i - s).
    - rewrite IH. split.
      + intros [H|[Hle H]].
        * injection H as <- <-. rewrite Nat.sub_diag. auto.
        * split; [lia|]. replace (i - s) with (S (i - S s)) by lia. exact H.
      + intros [Hle H]. destruct (i - s) as [|k] eqn:E.
        * left. injection H as <-. f_equal. lia.
        * right. split; [lia|]. replace (i - S s) with k by lia. exact H. }
  rewrite G, Nat.sub_0_r. split; [now intros [_ H] | split; [lia | auto]].
Qed.

Section KeyFramesFacts.

Variable Image : Type.
Variable frame_at : string -> nat -> option Image.
Variable imwrite_ok : string -> bool.

Local Notation "'run_loop'" := (save_first_frames Image frame_at imwrite_ok).

(** Whether the first frame of a scene can be read. *)
Definition readable (video_path : string) (scene : Scene) : bool :=
  match frame_at video_path (get_frames (fst scene)) with
  | Some _ => true
  | None => false
  end.

Definition read_failure (scene : Scene) : string :=
  "Failed to read frame at position " ++ str_nat (get_frames (fst scene)).

(** The file names that the loop appends, in order. *)
Fixpoint saved_frames (video_path output_dir : string)
    (scenes : list (nat * Scene)) : list string :=
  match scenes with
  | [] => []
  | (i, scene) :: rest =>
      if readable video_path scene
      then frame_name output_dir i :: saved_frames video_path output_dir rest
      else saved_frames video_path output_dir rest
  end.

(** The files on disk after the loop. *)
Fixpoint files_after (video_path output_dir : string)
    (scenes : list (nat * Scene)) (fs : list (string * Image))
  : list (string * Image) :=
  match scenes with
  | [] => fs
  | (i, scene) :: rest =>
      match frame_at video_path (get_frames (fst scene)) with
      | Some img =>
          files_after video_path output_dir rest
            (if imwrite_ok (frame_name output_dir i)
             then write_file (frame_name output_dir i) img fs
             else fs)
      | None => files_after video_path output_dir rest fs
      end
  end.

Lemma save_first_frames_run video_path output_dir total scenes :
  forall frame_list (w : World Image),
  exists out pos,
    run_loop video_path output_dir total scenes frame_list w
    = (Ok (frame_list ++ saved_frames video_path output_dir scenes)%list,
       mkWorld (stdout w ++ out) (video_manager_open w) (cap_open w) pos
               (dirs w)
               (files_after video_path output_dir scenes (files w)))
    /\ (forall i scene, In (i, scene) scenes ->
          readable video_path scene = false ->
          In (read_failure scene) out).
Proof.
  induction scenes as [|[i scene] rest IH]; intros frame_list w.
  - exists [], (cap_pos w). simpl. unfold ret. rewrite !app_nil_r.
    split; [now destruct w | intros ? ? []].
  - simpl. unfold readable, bind, print, modify, cap_set_pos_frames, cap_read,
      imwrite. simpl.
    destruct (frame_at video_path (get_frames (fst scene))) as [img|] eqn:E.
    + destruct (imwrite_ok (frame_name output_dir i));
        match goal with
        | |- context [run_loop _ _ _ rest ?fl ?w0] =>
            destruct (IH fl w0) as (out & pos & Hrun & Hfail)
        end;
        (eexists; exists pos; rewrite Hrun; simpl;
         rewrite <- !app_assoc; simpl; split; [reflexivity|]);
        (intros j sc [Hj|Hj] Hr;
         [ injection Hj as <- <-; unfold readable in Hr; rewrite E in Hr;
           discriminate
         | right; eapply Hfail; eauto ]).
    + match goal with
      | |- context [run_loop _ _ _ rest ?fl ?w0] =>
          destruct (IH fl w0) as (out & pos & Hrun & Hfail)
      end.
      eexists; exists pos; rewrite Hrun; simpl.
      rewrite <- !app_assoc; simpl. split; [reflexivity|].
      intros j sc [Hj|Hj] Hr.
      * injection Hj as <- <-. right. left. reflexivity.
      * right. right. eapply Hfail; eauto.
Qed.

Lemma saved_frames_length video_path output_dir scenes :
  List.length (saved_frames video_path output_dir scenes)
  <= List.length scenes.
Proof.
  induction scenes as [|[i scene] rest IH]; simpl; [lia|].
  destruct (readable video_path scene); simpl; lia.
Qed.

Lemma saved_frames_In video_path output_dir scenes name :
  In name (saved_frames video_path output_dir scenes) <->
  exists i scene, In (i, scene) scenes /\ readable video_path scene = true
                  /\ name = frame_name output_dir i.
Proof.
  induction scenes as [|[i scene] rest IH]; simpl.
  - split; [intros [] | intros (? & ? & [] & _)].
  - destruct (readable video_path scene) eqn:E; simpl; rewrite IH; split.
    + intros [<-|(j & sc & Hin & Hr & Hn)]; [exists i, scene|exists j, sc]; auto.
    + intros (j & sc & [Hj|Hin] & Hr & Hn).
      * injection Hj as <- <-. now left.
      * right. now exists j, sc.
    + intros (j & sc & Hin & Hr & Hn). exists j, sc. auto.
    + intros (j & sc & [Hj|Hin] & Hr & Hn).
      * injection Hj as <- <-. congruence.
      * now exists j, sc.
Qed.

Lemma saved_frames_NoDup video_path output_dir scenes :
  NoDup (map fst scenes) ->
  NoDup (saved_frames video_path output_dir scenes).
Proof.
  induction scenes as [|[i scene] rest IH]; simpl; intros Hnd.
  - constructor.
  - inversion Hnd as [|? ? Hnotin Hnd']; subst.
    destruct (readable video_path scene); [|auto].
    constructor; [|auto].
    intros Hin. apply saved_frames_In in Hin.
    destruct Hin as (j & sc & Hin & _ & Hn).
    apply frame_name_inj in Hn. subst j.
    apply Hnotin. change i with (fst (i, sc)). now apply in_map.
Qed.

(** A file that the loop does not name is as it was. *)
Lemma files_after_other video_path output_dir scenes name :
  forall fs,
  ~ In name (saved_frames video_path output_dir scenes) ->
  file_at name (files_after video_path output_dir scenes fs)
  = file_at name fs.
Proof.
  induction scenes as [|[i scene] rest IH]; intros fs Hn;
    cbn [files_after]; [reflexivity|].
  cbn [saved_frames] in Hn. unfold readable in Hn.
  destruct (frame_at video_path (get_frames (fst scene))) as [img|];
    [|now apply IH].
  rewrite IH by (intros H; apply Hn; now right).
  destruct (imwrite_ok (frame_name output_dir i)); [|reflexivity].
  apply file_at_write_file_other. intros Heq. apply Hn. now left.
Qed.


End KeyFramesFacts.

Section KeyFramesPaths.

Variable Image : Type.
Variable video_manager_new : string -> result unit.
Variable video_manager_start : string -> result unit.
Variable detect_scenes : string -> result (list Scene).
Variable os_makedirs : string -> result unit.
Variable is_opened : string -> bool.
Variable frame_at : string -> nat -> option Image.
Variable imwrite_ok : string -> bool.

Local Notation "'run_extract'" :=
  (extract_key_frames Image video_manager_new video_manager_start
                      detect_scenes os_makedirs is_opened frame_at
                      imwrite_ok).
Local Notation "'can_read'" := (readable Image frame_at).
Local Notation "'saved'" := (saved_frames Image frame_at).
Local Notation "'on_disk'" := (files_after Image frame_at imwrite_ok).

(** The detection step raised [e]: either call of the [try] block. *)
Definition detection_raises (video_path : string) (e : exception) : Prop :=
  video_manager_start video_path = Raise e \/
  (video_manager_start video_path = Ok tt /\
   detect_scenes video_path = Raise e).

(** The detection step returned the scene list [scene_list]. *)
Definition detection_finds (video_path : string) (scene_list : list Scene)
  : Prop :=
  video_manager_start video_path = Ok tt /\
  detect_scenes video_path = Ok scene_list.

Ltac run_paths :=
  unfold extract_key_frames, detect, try_except, bind, VideoManager,
    VideoCapture, lift, ret, print, makedirs, modify.

Lemma extract_run_constructor_raises video_path output_dir (w : World Image) e :
  video_manager_new video_path = Raise e ->
  run_extract video_path output_dir w = (Raise e, w).
Proof. intros H; run_paths; now rewrite H. Qed.

Lemma extract_run_detection_raises video_path output_dir (w : World Image) e :
  video_manager_new video_path = Ok tt ->
  detection_raises video_path e ->
  run_extract video_path output_dir w
  = (Ok [],
     mkWorld (stdout w
              ++ [("Error during scene detection: "
                   ++ str_exception e)%string])%list
             true (cap_open w) (cap_pos w) (dirs w) (files w)).
Proof.
  intros Hn [H|[H1 H2]]; run_paths; rewrite Hn, ?H, ?H1, ?H2; reflexivity.
Qed.

Lemma extract_run_no_scenes video_path output_dir (w : World Image) :
  video_manager_new video_path = Ok tt ->
  detection_finds video_path [] ->
  run_extract video_path output_dir w
  = (Ok [],
     mkWorld (stdout w ++ ["No scenes were detected in the video."])%list
             true (cap_open w) (cap_pos w) (dirs w) (files w)).
Proof.
  intros Hn [H1 H2]; run_paths; rewrite Hn, H1, H2; reflexivity.
Qed.

Lemma extract_run_makedirs_raises video_path output_dir (w : World Image)
    sl e :
  video_manager_new video_path = Ok tt ->
  detection_finds video_path sl -> sl <> [] ->
  os_makedirs output_dir = Raise e ->
  run_extract video_path output_dir w
  = (Raise e,
     mkWorld (stdout w
              ++ [("Detected " ++ str_nat (List.length sl)
                   ++ " scenes in video.")%string])%list
             true (cap_open w) (cap_pos w) (dirs w) (files w)).
Proof.
  intros Hn [H1 H2] Hne Hm; run_paths; rewrite Hn, H1, H2. simpl.
  destruct sl as [|s l]; [congruence|]. simpl. now rewrite Hm.
Qed.

Lemma extract_run_not_opened video_path output_dir (w : World Image) sl :
  video_manager_new video_path = Ok tt ->
  detection_finds video_path sl -> sl <> [] ->
  os_makedirs output_dir = Ok tt ->
  is_opened video_path = false ->
  run_extract video_path output_dir w
  = (Ok [],
     mkWorld ((stdout w
               ++ [("Detected " ++ str_nat (List.length sl)
                    ++ " scenes in video.")%string])
              ++ [("Failed to open video file " ++ video_path)%string])%list
             true false 0 (dirs_with output_dir (dirs w)) (files w)).
Proof.
  intros Hn [H1 H2] Hne Hm Hop; run_paths; rewrite Hn, H1, H2. simpl.
  destruct sl as [|s l]; [congruence|]. simpl. rewrite Hm, Hop. reflexivity.
Qed.

Lemma extract_run_completes video_path output_dir (w : World Image) sl :
  video_manager_new video_path = Ok tt ->
  detection_finds video_path sl -> sl <> [] ->
  os_makedirs output_dir = Ok tt ->
  is_opened video_path = true ->
  exists out pos,
    run_extract video_path output_dir w
    = (Ok (saved video_path output_dir (enumerate sl)),
       mkWorld (stdout w ++ out) false false pos
               (dirs_with output_dir (dirs w))
               (on_disk video_path output_dir (enumerate sl) (files w)))
    /\ (forall i scene, nth_error sl i = Some scene ->
          can_read video_path scene = false ->
          In (read_failure scene) out).
Proof.
  intros Hn [H1 H2] Hne Hm Hop; run_paths; rewrite Hn, H1, H2. simpl.
  destruct sl as [|s l]; [congruence|]. rewrite Hm, Hop.
  cbn [negb]. cbv beta iota.
  match goal with
  | |- context [save_first_frames _ _ _ ?p ?o ?t ?sc ?fl ?w0] =>
      destruct (save_first_frames_run Image frame_at imwrite_ok p o t sc fl w0)
        as (out & pos & Hrun & Hfail)
  end.
  rewrite Hrun. unfold cap_release, video_manager_release, modify. simpl.
  eexists; exists pos. rewrite <- app_assoc. split; [reflexivity|].
  intros i scene Hi Hr. right. apply (Hfail i scene); [|exact Hr].
  now apply enumerate_In.
Qed.

Lemma finds_unique video_path sl sl' :
  detection_finds video_path sl -> detection_finds video_path sl' -> sl = sl'.
Proof. intros [_ H] [_ H']. congruence. Qed.

Lemma raises_not_finds video_path e sl :
  detection_raises video_path e -> detection_finds video_path sl -> False.
Proof. intros [H|[_ H]] [H1 H2]; congruence. Qed.

(** The six ways through [extract_key_frames]: two of them raise. *)
Lemma extract_paths video_path output_dir :
  (exists e, video_manager_new video_path = Raise e) \/
  (video_manager_new video_path = Ok tt /\
   ((exists e, detection_raises video_path e) \/
    detection_finds video_path [] \/
    (exists sl, detection_finds video_path sl /\ sl <> [] /\
       ((exists e, os_makedirs output_dir = Raise e) \/
        (os_makedirs output_dir = Ok tt /\
         is_opened video_path = false) \/
        (os_makedirs output_dir = Ok tt /\
         is_opened video_path = true))))).
Proof.
  unfold detection_raises, detection_finds.
  destruct (video_manager_new video_path) as [[]|e]; [right; split; auto|eauto].
  destruct (video_manager_start video_path) as [[]|e]; [|eauto].
  destruct (detect_scenes video_path) as [[|s l]|e].
  - auto.
  - right; right. exists (s :: l). split; [auto|]. split; [discriminate|].
    destruct (os_makedirs output_dir) as [[]|e]; [|eauto].
    destruct (is_opened video_path); auto.
  - left. exists e. auto.
Qed.

(** What a call that returns has returned and done. *)
Lemma extract_returns video_path output_dir (w : World Image) frame_list w' :
  run_extract video_path output_dir w = (Ok frame_list, w') ->
  (frame_list = [] /\ files w' = files w /\
   ((exists e, detection_raises video_path e) \/
    detection_finds video_path [] \/
    is_opened video_path = false)) \/
  (exists sl out pos,
     detection_finds video_path sl /\ sl <> [] /\
     is_opened video_path = true /\
     frame_list = saved video_path output_dir (enumerate sl) /\
     w' = mkWorld (stdout w ++ out) false false pos
                  (dirs_with output_dir (dirs w))
                  (on_disk video_path output_dir (enumerate sl) (files w)) /\
     (forall i scene, nth_error sl i = Some scene ->
        can_read video_path scene = false ->
        In (read_failure scene) out)).
Proof.
  intros Hrun.
  destruct (extract_paths video_path output_dir)
    as [[e He]|[Hn [[e He]|[Hf|(sl & Hf & Hne & [[e He]|[[Hm Hop]|[Hm Hop]]])]]]].
  - rewrite (extract_run_constructor_raises _ _ _ _ He) in Hrun. discriminate.
  - rewrite (extract_run_detection_raises _ _ _ _ Hn He) in Hrun.
    injection Hrun as <- <-. left.
    split; [reflexivity|]. split; [reflexivity|]. left. eauto.
  - rewrite (extract_run_no_scenes _ _ _ Hn Hf) in Hrun.
    injection Hrun as <- <-. left.
    split; [reflexivity|]. split; [reflexivity|]. right. now left.
  - rewrite (extract_run_makedirs_raises _ _ _ _ _ Hn Hf Hne He) in Hrun.
    discriminate.
  - rewrite (extract_run_not_opened _ _ _ _ Hn Hf Hne Hm Hop) in Hrun.
    injection Hrun as <- <-. left.
    split; [reflexivity|]. split; [reflexivity|]. right. now right.
  - destruct (extract_run_completes video_path output_dir w sl Hn Hf Hne Hm Hop)
      as (out & pos & Hrun' & Hfail).
    rewrite Hrun' in Hrun. injection Hrun as <- <-.
    right. exists sl, out, pos.
    split; [exact Hf|]. repeat split; auto.
Qed.

(** C7. Take a video in which the detector finds the scenes [scene_list].
    When the [VideoManager] could be made and [os.makedirs] does not raise,
    [extract_key_frames] returns.  Whenever it returns, the list it returns
    is no longer than the scene list and has no name twice, and a file
    that differs from what it was before the call is named in the list.
    When the capture opens, a scene whose first frame cannot be read is
    reported on standard output and left out, and the loop goes on: the list
    holds exactly the names [frame_<i>.jpg] of the readable scenes [i]. *)
Theorem unreadable_scenes_are_skipped
    video_path output_dir (w : World Image) scene_list :
  detection_finds video_path scene_list ->
  (video_manager_new video_path = Ok tt ->
   (scene_list <> [] -> os_makedirs output_dir = Ok tt) ->
   exists frame_list w',
     run_extract video_path output_dir w = (Ok frame_list, w')) /\
  (forall frame_list w',
     run_extract video_path output_dir w = (Ok frame_list, w') ->
     List.length frame_list <= List.length scene_list /\
     NoDup frame_list /\
     (forall name, file_at name (files w') <> file_at name (files w) ->
                   In name frame_list) /\
     (is_opened video_path = true ->
        (forall name, In name frame_list <->
           exists i scene, nth_error scene_list i = Some scene /\
                           readable Image frame_at video_path scene = true /\
                           name = frame_name output_dir i) /\
        (forall i scene, nth_error scene_list i = Some scene ->
           readable Image frame_at video_path scene = false ->
           In (read_failure scene) (stdout w')))).
Proof.
  intros Hd. split.
  - intros Hn Hm.
    destruct scene_list as [|s l].
    { rewrite (extract_run_no_scenes _ _ _ Hn Hd). eauto. }
    assert (Hne : s :: l <> []) by discriminate.
    specialize (Hm Hne).
    destruct (is_opened video_path) eqn:Hop.
    + destruct (extract_run_completes video_path output_dir w _ Hn Hd Hne Hm Hop)
        as (out & pos & Hrun & _).
      rewrite Hrun. eauto.
    + rewrite (extract_run_not_opened _ _ _ _ Hn Hd Hne Hm Hop). eauto.
  - intros frame_list w' Hrun.
    destruct (extract_returns _ _ _ _ _ Hrun)
      as [(-> & Hfiles & Hwhy)
         |(sl & out & pos & Hf & Hne & Hop & -> & -> & Hfail)].
    + split; [simpl; lia|]. split; [constructor|].
      split; [intros name Hdiff; now rewrite Hfiles in Hdiff|].
      intros Hop. destruct Hwhy as [[e He]|[Hf|Hno]].
      * exfalso. exact (raises_not_finds _ _ _ He Hd).
      * rewrite (finds_unique _ _ _ Hd Hf). split.
        -- intros name. split; [intros []|].
           intros (i & scene & Hi & _). now destruct i.
        -- intros i scene Hi. now destruct i.
      * congruence.
    + rewrite (finds_unique _ _ _ Hd Hf).
      split; [|split; [|split; [|intros _; split]]].
      * eapply Nat.le_trans; [apply saved_frames_length|].
        unfold enumerate. rewrite length_combine, length_seq. lia.
      * apply saved_frames_NoDup. rewrite enumerate_fst. apply seq_NoDup.
      * intros name Hdiff. simpl in Hdiff.
        destruct (in_dec string_dec name
                    (saved video_path output_dir (enumerate sl)))
          as [Hin|Hnin]; [exact Hin|].
        exfalso. apply Hdiff. now apply files_after_other.
      * intros name. rewrite saved_frames_In. split.
        -- intros (i & scene & Hin & Hr & Hn).
           exists i, scene. rewrite <- enumerate_In. auto.
        -- intros (i & scene & Hin & Hr & Hn).
           exists i, scene. rewrite enumerate_In. auto.
      * intros i scene Hi Hr. simpl. apply in_or_app. right. eauto.
Qed.

End KeyFramesPaths.

(** *** A video with three scenes, the second of which cannot be read *)

Definition fresh_world : World nat := mkWorld [] false false 0 [] [].

Definition scene_at (first last : nat) : Scene :=
  (Build_FrameTimecode first, Build_FrameTimecode last).

Definition three_scenes : list Scene :=
  [scene_at 0 10; scene_at 10 20; scene_at 20 30].

Definition second_unreadable (video_path : string) (n : nat) : option nat :=
  if (n =? 10)%nat then None else Some n.

Definition every_frame (video_path : string) (n : nat) : option nat := Some n.

Definition new_ok (video_path : string) : result unit := Ok tt.

(** A video file that is not there. *)
Definition new_fails (video_path : string) : result unit :=
  Raise (OSError "Video file(s) not found.").

Definition start_ok (video_path : string) : result unit := Ok tt.

Definition start_fails (video_path : string) : result unit :=
  Raise (RuntimeError "unsupported codec").

Definition makedirs_ok (d : string) : result unit := Ok tt.

(** [os.makedirs] refuses the empty path. *)
Definition makedirs_nonempty (d : string) : result unit :=
  if String.eqb d "" then
    Raise (OSError "[Errno 2] No such file or directory: ''")
  else Ok tt.

Definition write_ok (filename : string) : bool := true.

Example three_scenes_run :
  extract_key_frames nat new_ok start_ok (fun _ => Ok three_scenes)
    makedirs_ok (fun _ => true) second_unreadable write_ok
    "movie.mp4" "frames" fresh_world
  = (Ok ["frames/frame_0.jpg"; "frames/frame_2.jpg"],
     mkWorld
       ["Detected 3 scenes in video.";
        "Processing scene 1/3";
        "Processing scene 2/3";
        "Failed to read frame at position 10";
        "Processing scene 3/3"]
       false false 21 ["frames"]
       [("frames/frame_0.jpg", 0); ("frames/frame_2.jpg", 20)]).
Proof. reflexivity. Qed.

Lemma unreadable_scenes_are_skipped_witness :
  (exists frame_list w',
     extract_key_frames nat new_ok start_ok (fun _ => Ok three_scenes)
       makedirs_ok (fun _ => true) second_unreadable write_ok
       "movie.mp4" "frames" fresh_world
     = (Ok frame_list, w')) /\
  List.length ["frames/frame_0.jpg"; "frames/frame_2.jpg"] <= 3 /\
  NoDup ["frames/frame_0.jpg"; "frames/frame_2.jpg"] /\
  In (read_failure (scene_at 10 20))
     ["Detected 3 scenes in video.";
      "Processing scene 1/3";
      "Processing scene 2/3";
      "Failed to read frame at position 10";
      "Processing scene 3/3"].
Proof.
  destruct (unreadable_scenes_are_skipped nat new_ok start_ok
              (fun _ => Ok three_scenes) makedirs_ok (fun _ => true)
              second_unreadable write_ok "movie.mp4" "frames" fresh_world
              three_scenes (conj eq_refl eq_refl)) as [Hreturns Hlist].
  split.
  - apply Hreturns; [reflexivity | intros _; reflexivity].
  - destruct (Hlist _ _ three_scenes_run) as (Hlen & Hnd & _ & Hopen).
    split; [exact Hlen|]. split; [exact Hnd|].
    destruct (Hopen eq_refl) as [_ Hfail].
    apply (Hfail 1 (scene_at 10 20)); reflexivity.
Defined.

(** C8. The handles are not released on the early returns: on each of the
    three failure branches [extract_key_frames] returns the empty list while
    the scene-detection handle is still held.  Only the path that reaches the
    end of the function releases both handles (lemma
    [extract_run_completes]). *)
Theorem early_returns_keep_the_video_manager_open :
  (let '(r, w') :=
     extract_key_frames nat new_ok start_fails (fun _ => Ok three_scenes)
       makedirs_ok (fun _ => true) second_unreadable write_ok
       "movie.mp4" "frames" fresh_world in
   r = Ok [] /\ video_manager_open w' = true) /\
  (let '(r, w') :=
     extract_key_frames nat new_ok start_ok (fun _ => Ok [])
       makedirs_ok (fun _ => true) second_unreadable write_ok
       "movie.mp4" "frames" fresh_world in
   r = Ok [] /\ video_manager_open w' = true) /\
  (let '(r, w') :=
     extract_key_frames nat new_ok start_ok (fun _ => Ok three_scenes)
       makedirs_ok (fun _ => false) second_unreadable write_ok
       "movie.mp4" "frames" fresh_world in
   r = Ok [] /\ video_manager_open w' = true).
Proof. repeat split. Qed.

Section KeyFramesRaises.

Variable Image : Type.
Variable video_manager_new : string -> result unit.
Variable video_manager_start : string -> result unit.
Variable detect_scenes : string -> result (list Scene).
Variable os_makedirs : string -> result unit.
Variable is_opened : string -> bool.
Variable frame_at : string -> nat -> option Image.
Variable imwrite_ok : string -> bool.

(** C10. [extract_key_frames] does not return a list on every path: two of
    its calls stand outside the [try] block and outside any handler.  When
    the constructor [VideoManager([video_path])] raises, the exception leaves
    the function before anything is printed or done; when scenes were found
    and [os.makedirs(output_dir, exist_ok=True)] raises, the exception leaves
    the function too, with nothing written and the video manager still
    held. *)
Theorem extract_key_frames_raises_outside_the_try
    video_path output_dir (w : World Image) :
  (forall e, video_manager_new video_path = Raise e ->
     extract_key_frames Image video_manager_new video_manager_start
       detect_scenes os_makedirs is_opened frame_at imwrite_ok
       video_path output_dir w
     = (Raise e, w)) /\
  (forall e scene_list,
     video_manager_new video_path = Ok tt ->
     detection_finds video_manager_start detect_scenes video_path
                     scene_list ->
     scene_list <> [] ->
     os_makedirs output_dir = Raise e ->
     exists w',
       extract_key_frames Image video_manager_new video_manager_start
         detect_scenes os_makedirs is_opened frame_at imwrite_ok
         video_path output_dir w
       = (Raise e, w') /\
       video_manager_open w' = true /\
       dirs w' = dirs w /\ files w' = files w).
Proof.
  split.
  - intros e He. now apply extract_run_constructor_raises.
  - intros e sl Hn Hf Hne He.
    rewrite (extract_run_makedirs_raises _ _ _ _ _ _ _ _ _ _ _ _ _
               Hn Hf Hne He).
    eexists. split; [reflexivity|]. repeat split.
Qed.

End KeyFramesRaises.

Lemma extract_key_frames_raises_outside_the_try_witness :
  extract_key_frames nat new_fails start_ok (fun _ => Ok three_scenes)
    makedirs_ok (fun _ => true) every_frame write_ok
    "missing.mp4" "frames" fresh_world
  = (Raise (OSError "Video file(s) not found."), fresh_world) /\
  exists w',
    extract_key_frames nat new_ok start_ok (fun _ => Ok three_scenes)
      makedirs_nonempty (fun _ => true) every_frame write_ok
      "movie.mp4" "" fresh_world
    = (Raise (OSError "[Errno 2] No such file or directory: ''"), w') /\
    video_manager_open w' = true /\
    dirs w' = dirs fresh_world /\ files w' = files fresh_world.
Proof.
  split.
  - apply (proj1 (extract_key_frames_raises_outside_the_try nat new_fails
                    start_ok (fun _ => Ok three_scenes) makedirs_ok
                    (fun _ => true) every_frame write_ok
                    "missing.mp4" "frames" fresh_world)).
    reflexivity.
  - apply (proj2 (extract_key_frames_raises_outside_the_try nat new_ok
                    start_ok (fun _ => Ok three_scenes) makedirs_nonempty
                    (fun _ => true) every_frame write_ok
                    "movie.mp4" "" fresh_world)
                 _ three_scenes).
    + reflexivity.
    + split; reflexivity.
    + discriminate.
    + reflexivity.
Defined.

(** ** The frame table: rows, columns and sorting *)

(** Every column has one cell per row label, as pandas maintains. *)
Definition well_formed (df : DataFrame) : Prop :=
  Forall (fun c => List.length (snd c) = nrows df) (columns df).

(** The row at a position, and [df.iterrows()]. *)
Definition row (df : DataFrame) (p : nat) : nat * list (string * value) :=
  (nth p (index df) 0%nat,
   map (fun c => (fst c, nth p (snd c) (VStr ""))) (columns df)).

Definition iterrows (df : DataFrame) : list (nat * list (string * value)) :=
  map (row df) (seq 0 (nrows df)).

(** [sim[i] >= sim[i+1]] for all consecutive positions. *)
Definition descending (l : list R) : Prop :=
  forall i, S i < List.length l -> (nth i l 0 >= nth (S i) l 0)%R.

Lemma map_nth_seq {A} (l : list A) d :
  map (fun j => nth j l d) (seq 0 (List.length l)) = l.
Proof.
  apply (nth_ext _ _ d d).
  - now rewrite length_map, length_seq.
  - intros n Hn. rewrite length_map, length_seq in Hn.
    rewrite (nth_indep _ d (nth 0 l d))
      by now rewrite length_map, length_seq.
    rewrite (map_nth (fun j => nth j l d) (seq 0 (List.length l)) 0%nat).
    now rewrite seq_nth.
Qed.

Lemma lookup_set_column_same key vs cols :
  lookup key (set_column key vs cols) = Some vs.
Proof.
  induction cols as [|[k old] cols IH]; simpl.
  - now rewrite String.eqb_refl.
  - destruct (String.eqb k key) eqn:E; simpl; rewrite E; auto.
Qed.

Lemma lookup_set_column_other key key' vs cols :
  key' <> key ->
  lookup key' (set_column key vs cols) = lookup key' cols.
Proof.
  intros Hne. induction cols as [|[k old] cols IH]; simpl.
  - destruct (String.eqb key key') eqn:E; [|reflexivity].
    apply String.eqb_eq in E. congruence.
  - destruct (String.eqb k key) eqn:E; simpl.
    + apply String.eqb_eq in E. subst k.
      destruct (String.eqb key key') eqn:E'; [|reflexivity].
      apply String.eqb_eq in E'. congruence.
    + now rewrite IH.
Qed.

Lemma lookup_map_columns key (f : list value -> list value) cols :
  lookup key (map (fun c => (fst c, f (snd c))) cols)
  = option_map f (lookup key cols).
Proof.
  induction cols as [|[k vs] cols IH]; simpl; [reflexivity|].
  destruct (String.eqb k key); [reflexivity | exact IH].
Qed.

Lemma lookup_length key cols vs n :
  Forall (fun c => List.length (snd c) = n) cols ->
  lookup key cols = Some vs -> List.length vs = n.
Proof.
  induction 1 as [|[k old] cols Hc Hcols IH]; simpl; [discriminate|].
  destruct (String.eqb k key); [|exact IH].
  intros E. injection E as <-. exact Hc.
Qed.

Lemma rmap_length {A B} (f : A -> result B) l bs :
  rmap f l = Ok bs -> List.length bs = List.length l.
Proof.
  revert bs. induction l as [|a l IH]; simpl; intros bs H.
  - injection H as <-. reflexivity.
  - destruct (f a); simpl in H; [|discriminate].
    destruct (rmap f l); simpl in H; [|discriminate].
    injection H as <-. simpl. f_equal. now apply IH.
Qed.


Lemma sorted_consecutive l :
  Sorted Rle l ->
  forall i, S i < List.length l -> (nth i l 0 <= nth (S i) l 0)%R.
Proof.
  induction 1 as [|x l Hs IH Hd]; intros i Hi; simpl in Hi; [lia|].
  destruct i as [|i].
  - destruct l as [|y l]; simpl in *; [lia|]. now inversion Hd.
  - apply (IH i). lia.
Qed.

Lemma sorted_rev_descending l : Sorted Rle l -> descending (List.rev l).
Proof.
  intros Hs i Hi. rewrite length_rev in Hi.
  rewrite !rev_nth by lia.
  pose proof (sorted_consecutive l Hs (List.length l - S (S i))) as H.
  replace (S (List.length l - S (S i))) with (List.length l - S i) in H
    by lia.
  apply Rle_ge, H. lia.
Qed.

Lemma descending_firstn k l : descending l -> descending (firstn k l).
Proof.
  intros Hd i Hi. rewrite length_firstn in Hi.
  rewrite !nth_firstn.
  destruct (Nat.ltb_spec i k), (Nat.ltb_spec (S i) k); try lia.
  apply Hd. lia.
Qed.

Section SortingFacts.

Context {sorter : ArgSort}.

Lemma argsort_in_range a p :
  In p (argsort a) -> p < List.length a.
Proof.
  intros Hin.
  apply (Permutation_in _ (argsort_perm a)) in Hin.
  apply in_seq in Hin. lia.
Qed.

Lemma nargsort_descending_perm items :
  Permutation (nargsort_descending items) (seq 0 (List.length items)).
Proof.
  unfold nargsort_descending.
  eapply perm_trans; [apply Permutation_sym, Permutation_rev|].
  eapply perm_trans.
  - apply Permutation_map, argsort_perm.
  - rewrite length_rev.
    rewrite <- (length_seq (List.length items) 0) at 1.
    rewrite <- (length_rev (seq 0 (List.length items))).
    rewrite map_nth_seq. apply Permutation_sym, Permutation_rev.
Qed.

Lemma nargsort_descending_keys items :
  map (fun p => nth p items 0%R) (nargsort_descending items)
  = List.rev (map (fun p => nth p (List.rev items) 0%R)
                  (argsort (List.rev items))).
Proof.
  unfold nargsort_descending. rewrite map_rev, map_map. f_equal.
  apply map_ext_in. intros p Hp. apply argsort_in_range in Hp.
  rewrite length_rev in Hp.
  rewrite rev_nth by now rewrite length_seq.
  rewrite length_seq, seq_nth by lia.
  now rewrite rev_nth by assumption.
Qed.

Lemma nargsort_descending_sorted items :
  descending (map (fun p => nth p items 0%R) (nargsort_descending items)).
Proof.
  rewrite nargsort_descending_keys.
  apply sorted_rev_descending, argsort_sorted.
Qed.

Lemma nargsort_descending_in_range items p :
  In p (nargsort_descending items) -> p < List.length items.
Proof.
  intros Hin.
  apply (Permutation_in _ (nargsort_descending_perm items)) in Hin.
  apply in_seq in Hin. lia.
Qed.

Lemma nargsort_descending_length items :
  List.length (nargsort_descending items) = List.length items.
Proof.
  rewrite (Permutation_length (nargsort_descending_perm items)).
  apply length_seq.
Qed.

End SortingFacts.

Lemma head_take_any df indexer (n : Z) :
  head (take df indexer) n
  = take df (firstn (if (0 <=? n)%Z then Z.to_nat n
                     else List.length indexer - Z.to_nat (- n)) indexer).
Proof.
  unfold head, take, nrows. simpl. rewrite length_map.
  f_equal.
  - apply firstn_map.
  - rewrite map_map. apply map_ext. intros [k vs]. simpl.
    f_equal. apply firstn_map.
Qed.

Lemma take_well_formed df indexer : well_formed (take df indexer).
Proof.
  unfold well_formed, take, nrows. simpl.
  apply Forall_map, Forall_forall. intros [k vs] _. simpl.
  now rewrite !length_map.
Qed.

Lemma similarity_cells pe cells sims :
  rmap (similarity_to pe) cells = Ok sims ->
  exists keys, sims = map VFloat keys /\ rmap as_float sims = Ok keys.
Proof.
  revert sims. induction cells as [|c cells IH]; simpl; intros sims H.
  - injection H as <-. now exists [].
  - destruct (similarity_to pe c) as [v|] eqn:Ec; simpl in H; [|discriminate].
    destruct (rmap (similarity_to pe) cells) as [vs|]; simpl in H;
      [|discriminate].
    injection H as <-.
    destruct (IH vs eq_refl) as [keys [-> Hkeys]].
    unfold similarity_to in Ec.
    destruct (as_row c) as [r|]; simpl in Ec; [|discriminate].
    destruct (cosine_similarity r pe) as [s|]; simpl in Ec; [|discriminate].
    injection Ec as <-.
    exists (s :: keys). simpl. now rewrite Hkeys.
Qed.

(** The cells of a column are embeddings of dimension [d]. *)
Definition embeddings_of_dimension (d : nat) (cells : list value) : Prop :=
  Forall (fun c => exists e, c = VList e /\ List.length e = d) cells.

Lemma similarity_cells_ok pe cells :
  pe <> [] -> embeddings_of_dimension (List.length pe) cells ->
  exists sims, rmap (similarity_to pe) cells = Ok sims.
Proof.
  intros Hpe. induction 1 as [|c cells [e [-> He]] _ [sims IH]]; simpl.
  - now exists [].
  - unfold similarity_to at 1. simpl.
    rewrite cosine_similarity_ok; [| |exact He].
    + simpl. rewrite IH. simpl. eauto.
    + intros ->. destruct pe; [congruence | discriminate].
Qed.

Definition with_similarity (df : DataFrame) (sims : list value) : DataFrame :=
  mkDataFrame (index df) (set_column "similarity" sims (columns df)).

Section SearchFacts.

Variable embeddings_create : string -> string -> result (list R).
Context {sorter : ArgSort}.

Local Notation "'search'" := (search_frames embeddings_create).
Local Notation "'embed'" := (get_embedding embeddings_create).

(** The three ways in which [search_frames] raises before it sorts, and its
    normal return. *)
Lemma search_frames_run prompt top_n df :
  search prompt top_n df =
  match embed prompt with
  | Raise e => (Raise e, df)
  | Ok pe =>
      match lookup "embedding" (columns df) with
      | None => (Raise (KeyError "embedding"), df)
      | Some cells =>
          match rmap (similarity_to pe) cells with
          | Raise e => (Raise e, df)
          | Ok sims =>
              match sort_values_descending (with_similarity df sims)
                                           "similarity" with
              | Raise e => (Raise e, with_similarity df sims)
              | Ok sorted => (Ok (head sorted top_n), with_similarity df sims)
              end
          end
      end
  end.
Proof.
  unfold search_frames, bind, lift, get, setitem, modify, ret, getitem,
    Series_apply, with_similarity.
  destruct (embed prompt) as [pe|e]; [|reflexivity].
  destruct (lookup "embedding" (columns df)) as [cells|]; [|reflexivity].
  simpl. destruct (rmap (similarity_to pe) cells) as [sims|e]; simpl;
    [|reflexivity].
  match goal with |- context [sort_values_descending ?d ?k] =>
    destruct (sort_values_descending d k) end; reflexivity.
Qed.

Lemma sort_with_similarity df keys :
  sort_values_descending (with_similarity df (map VFloat keys)) "similarity"
  = Ok (take (with_similarity df (map VFloat keys))
             (nargsort_descending keys)).
Proof.
  unfold sort_values_descending, with_similarity. simpl.
  rewrite lookup_set_column_same.
  assert (H : rmap as_float (map VFloat keys) = Ok keys).
  { induction keys as [|k keys IH]; simpl; [reflexivity|].
    now rewrite IH. }
  now rewrite H.
Qed.

Lemma search_frames_ok prompt top_n df pe cells sims :
  embed prompt = Ok pe ->
  lookup "embedding" (columns df) = Some cells ->
  rmap (similarity_to pe) cells = Ok sims ->
  exists keys,
    sims = map VFloat keys /\
    search prompt top_n df
    = (Ok (head (take (with_similarity df sims) (nargsort_descending keys))
                top_n),
       with_similarity df sims).
Proof.
  intros He Hc Hs.
  destruct (similarity_cells _ _ _ Hs) as [keys [-> _]].
  exists keys. split; [reflexivity|].
  now rewrite search_frames_run, He, Hc, Hs, sort_with_similarity.
Qed.

Lemma search_frames_inv prompt top_n df res :
  fst (search prompt top_n df) = Ok res ->
  exists pe cells sims,
    embed prompt = Ok pe /\
    lookup "embedding" (columns df) = Some cells /\
    rmap (similarity_to pe) cells = Ok sims.
Proof.
  rewrite search_frames_run.
  destruct (embed prompt) as [pe|]; [|discriminate].
  destruct (lookup "embedding" (columns df)) as [cells|]; [|discriminate].
  destruct (rmap (similarity_to pe) cells) as [sims|] eqn:Hs; [|discriminate].
  intros _. now exists pe, cells, sims.
Qed.

End SearchFacts.

(** ** Stable sorts

    [ties_in_order keys ix]: in the list of positions [ix], positions with
    equal keys come in increasing order, which is the original index order
    of the spec.  A sort is stable when its output has this property. *)

Definition ties_in_order (keys : list R) (ix : list nat) : Prop :=
  forall u v, u < v -> v < List.length ix ->
    nth (nth u ix 0%nat) keys 0%R = nth (nth v ix 0%nat) keys 0%R ->
    nth u ix 0%nat < nth v ix 0%nat.

Definition stable_argsort (sorter : ArgSort) : Prop :=
  forall a, ties_in_order a (argsort a).

Lemma ties_in_order_firstn keys k ix :
  ties_in_order keys ix -> ties_in_order keys (firstn k ix).
Proof.
  intros H u v Huv Hv. rewrite length_firstn in Hv.
  rewrite !nth_firstn.
  destruct (Nat.ltb_spec u k), (Nat.ltb_spec v k); try lia.
  apply H; lia.
Qed.

Section StableSorting.

Context {sorter : ArgSort}.

Lemma argsort_length a : List.length (argsort a) = List.length a.
Proof.
  rewrite (Permutation_length (argsort_perm a)). apply length_seq.
Qed.

Lemma nargsort_descending_nth items u :
  u < List.length items ->
  nth u (nargsort_descending items) 0%nat
  = List.length items
    - S (nth (List.length items - S u) (argsort (List.rev items)) 0%nat).
Proof.
  intros Hu. unfold nargsort_descending.
  assert (Hs : List.length (argsort (List.rev items)) = List.length items)
    by now rewrite argsort_length, length_rev.
  rewrite rev_nth by (rewrite length_map; lia).
  rewrite length_map, Hs.
  set (j := List.length items - S u).
  assert (Hj : nth j (argsort (List.rev items)) 0%nat < List.length items).
  { rewrite <- (length_rev items). apply argsort_in_range, nth_In.
    rewrite Hs. unfold j. lia. }
  rewrite (nth_indep _ 0%nat
             (nth 0 (List.rev (seq 0 (List.length items))) 0%nat))
    by (rewrite length_map, Hs; unfold j; lia).
  rewrite (map_nth (fun p => nth p (List.rev (seq 0 (List.length items)))
                                 0%nat)).
  rewrite rev_nth by now rewrite length_seq.
  rewrite length_seq. apply seq_nth. lia.
Qed.

Lemma nargsort_descending_stable :
  stable_argsort sorter ->
  forall items, ties_in_order items (nargsort_descending items).
Proof.
  intros Hst items u v Huv Hv.
  rewrite nargsort_descending_length in Hv.
  rewrite !nargsort_descending_nth by lia.
  set (n := List.length items).
  set (s := argsort (List.rev items)).
  assert (Hs : List.length s = n)
    by (unfold s, n; now rewrite argsort_length, length_rev).
  assert (Hin : forall j, j < n -> nth j s 0%nat < n).
  { intros j Hj. unfold n. rewrite <- (length_rev items).
    apply argsort_in_range, nth_In. fold s. lia. }
  pose proof (Hin (n - S u) ltac:(lia)) as Hu'.
  pose proof (Hin (n - S v) ltac:(lia)) as Hv'.
  intros Hkeys.
  assert (Hlt : nth (n - S v) s 0%nat < nth (n - S u) s 0%nat).
  { apply (Hst (List.rev items)); fold s; [lia | lia |].
    rewrite !rev_nth by (fold n; lia). fold n. now symmetry. }
  lia.
Qed.

End StableSorting.

(** The insertion sort that places a new value in front of the equal values
    already placed is stable. *)

Definition lex_lt (p q : R * nat) : Prop :=
  (fst p < fst q)%R \/ (fst p = fst q /\ snd p < snd q).

Lemma insert_in before x l y :
  In y (insert before x l) -> y = x \/ In y l.
Proof.
  intros H. apply (Permutation_in _ (insert_perm before x l)) in H.
  destruct H; auto.
Qed.

Lemma insert_lex x l :
  StronglySorted lex_lt l ->
  Forall (fun y => snd x < snd y) l ->
  StronglySorted lex_lt (insert Rleb x l).
Proof.
  induction 1 as [|y l Hs IH Hy]; intros Hx; simpl.
  - repeat constructor.
  - inversion Hx as [|? ? Hxy Hxl]; subst.
    unfold Rleb. destruct (Rle_dec (fst x) (fst y)) as [Hle|Hgt].
    + constructor; [now constructor|].
      constructor.
      * destruct Hle as [Hlt|Heq]; [now left | now right].
      * apply Forall_forall. intros z Hz.
        pose proof (proj1 (Forall_forall _ _) Hy z Hz) as Hyz.
        pose proof (proj1 (Forall_forall _ _) Hxl z Hz) as Hxz.
        destruct Hyz as [Hlt|[Heq _]].
        -- left. lra.
        -- destruct Hle as [Hlt|Heq']; [left; lra | right; split; [lra|auto]].
    + constructor; [now apply IH|].
      apply Forall_forall. intros z Hz.
      apply insert_in in Hz. destruct Hz as [->|Hz].
      * left. lra.
      * exact (proj1 (Forall_forall _ _) Hy z Hz).
Qed.

Lemma isort_lex l :
  StronglySorted lt (map snd l) ->
  StronglySorted lex_lt (isort Rleb l).
Proof.
  induction l as [|x l IH]; simpl; intros Hs.
  - constructor.
  - inversion Hs as [|? ? Hs' Hx]; subst.
    apply insert_lex; [now apply IH|].
    apply Forall_forall. intros y Hy.
    apply (Permutation_in _ (isort_perm Rleb l)) in Hy.
    apply (proj1 (Forall_forall _ _) Hx). now apply in_map.
Qed.

Lemma seq_strongly_sorted len start : StronglySorted lt (seq start len).
Proof.
  revert start. induction len as [|len IH]; intros start; simpl.
  - constructor.
  - constructor; [apply IH|].
    apply Forall_forall. intros y Hy. apply in_seq in Hy. lia.
Qed.

Lemma strongly_sorted_nth {A} (rel : A -> A -> Prop) l d :
  StronglySorted rel l ->
  forall u v, u < v -> v < List.length l -> rel (nth u l d) (nth v l d).
Proof.
  induction 1 as [|x l Hs IH Hx]; intros u v Huv Hv; simpl in Hv; [lia|].
  destruct v as [|v]; [lia|]. destruct u as [|u]; simpl.
  - apply (proj1 (Forall_forall _ _) Hx), nth_In. lia.
  - apply IH; lia.
Qed.

Lemma stable_sorter_is_stable : stable_argsort stable_sorter.
Proof.
  intros a u v Huv Hv. simpl in *. unfold insertion_argsort in *.
  rewrite length_map in Hv.
  set (sorted := isort Rleb (combine a (seq 0 (List.length a)))) in *.
  assert (Hlex : StronglySorted lex_lt sorted).
  { apply isort_lex. rewrite map_snd_combine_seq.
    apply seq_strongly_sorted. }
  assert (Hkeys : Forall (fun p => nth (snd p) a 0%R = fst p) sorted).
  { eapply Permutation_Forall; [|apply combine_seq_keys].
    apply Permutation_sym, isort_perm. }
  assert (Hnth : forall j, j < List.length sorted ->
            nth j (map snd sorted) 0%nat = snd (nth j sorted (0%R, 0%nat)) /\
            nth (snd (nth j sorted (0%R, 0%nat))) a 0%R
            = fst (nth j sorted (0%R, 0%nat))).
  { intros j Hj. split.
    - apply (map_nth snd sorted (0%R, 0%nat)).
    - apply (proj1 (Forall_forall _ _) Hkeys), nth_In, Hj. }
  destruct (Hnth u ltac:(lia)) as [-> Hu].
  destruct (Hnth v Hv) as [-> Hv'].
  rewrite Hu, Hv'. intros Heq.
  destruct (strongly_sorted_nth lex_lt sorted (0%R, 0%nat) Hlex u v Huv Hv)
    as [Hlt|[_ Hlt]]; [lra | exact Hlt].
Qed.

Lemma in_firstn {A} (x : A) n l : In x (firstn n l) -> In x l.
Proof.
  intros H. rewrite <- (firstn_skipn n l). apply in_or_app. now left.
Qed.

Section SearchClaims.

Variable embeddings_create : string -> string -> result (list R).
Context {sorter : ArgSort}.

Local Notation "'search'" := (search_frames embeddings_create).
Local Notation "'embed'" := (get_embedding embeddings_create).

(** How many rows [head] keeps of a frame of [len] rows. *)
Definition head_count (len : nat) (n : Z) : nat :=
  if (0 <=? n)%Z then Z.to_nat n else len - Z.to_nat (- n).

Lemma similarity_of_taken df keys indexer :
  Forall (fun p => p < List.length keys) indexer ->
  lookup "similarity"
         (columns (take (with_similarity df (map VFloat keys)) indexer))
  = Some (map VFloat (map (fun p => nth p keys 0%R) indexer)).
Proof.
  intros Hr. unfold take, with_similarity. simpl.
  rewrite (lookup_map_columns "similarity"
             (fun vs => map (fun p => nth p vs (VStr "")) indexer)).
  rewrite lookup_set_column_same. simpl. f_equal.
  rewrite map_map. apply map_ext_Forall.
  eapply Forall_impl; [|exact Hr]. simpl. intros p Hp.
  rewrite (nth_indep _ (VStr "") (VFloat 0)) by now rewrite length_map.
  apply (map_nth VFloat).
Qed.

(** The normal return of [search_frames]: the rows of the updated corpus at
    the first positions of the descending order of the scores. *)
Lemma search_frames_result prompt top_n df pe cells sims :
  embed prompt = Ok pe ->
  lookup "embedding" (columns df) = Some cells ->
  rmap (similarity_to pe) cells = Ok sims ->
  exists keys indexer,
    sims = map VFloat keys /\
    List.length keys = List.length cells /\
    Permutation indexer (seq 0 (List.length keys)) /\
    let kept := firstn (head_count (List.length keys) top_n) indexer in
    search prompt top_n df
    = (Ok (take (with_similarity df sims) kept), with_similarity df sims) /\
    lookup "similarity" (columns (take (with_similarity df sims) kept))
    = Some (map VFloat (map (fun p => nth p keys 0%R) kept)) /\
    descending (map (fun p => nth p keys 0%R) kept) /\
    (stable_argsort sorter -> ties_in_order keys kept).
Proof.
  intros He Hc Hs.
  destruct (search_frames_ok embeddings_create prompt top_n df pe cells sims
              He Hc Hs) as [keys [-> Hrun]].
  exists keys, (nargsort_descending keys).
  split; [reflexivity|]. split.
  { apply rmap_length in Hs. now rewrite length_map in Hs. }
  split; [apply nargsort_descending_perm|].
  cbv zeta. split; [|split; [|split]].
  - rewrite Hrun, head_take_any, nargsort_descending_length. reflexivity.
  - apply similarity_of_taken, Forall_forall. intros p Hp.
    apply nargsort_descending_in_range.
    eapply in_firstn, Hp.
  - rewrite <- firstn_map. apply descending_firstn.
    apply nargsort_descending_sorted.
  - intros Hst. apply ties_in_order_firstn.
    now apply nargsort_descending_stable.
Qed.

End SearchClaims.

Section SearchTheorems.

Variable embeddings_create : string -> string -> result (list R).
Context {sorter : ArgSort}.

Local Notation "'search'" := (search_frames embeddings_create).
Local Notation "'embed'" := (get_embedding embeddings_create).


(** C5, as the code has it.  Whenever [search_frames] returns, its result
    is made of rows of the corpus (the positions [kept]) whose scores are in
    descending order: every score is at least the next one.  Rows with equal
    scores come in their original order when the sort behind [sort_values]
    is stable; the default quicksort does not promise it. *)
Theorem search_results_descending prompt top_n df res :
  fst (search prompt top_n df) = Ok res ->
  exists keys kept,
    lookup "similarity" (columns (snd (search prompt top_n df)))
    = Some (map VFloat keys) /\
    res = take (snd (search prompt top_n df)) kept /\
    lookup "similarity" (columns res)
    = Some (map VFloat (map (fun p => nth p keys 0%R) kept)) /\
    descending (map (fun p => nth p keys 0%R) kept) /\
    (stable_argsort sorter -> ties_in_order keys kept).
Proof.
  intros Hok.
  destruct (search_frames_inv embeddings_create prompt top_n df res Hok)
    as (pe & cells & sims & He & Hc & Hs).
  destruct (search_frames_result embeddings_create prompt top_n df pe cells
              sims He Hc Hs)
    as (keys & indexer & -> & Hlen & Hperm & Hrun & Hsim & Hdesc & Hties).
  cbv zeta in *. rewrite Hrun in *. simpl in Hok. injection Hok as <-.
  simpl snd. eexists; eexists.
  split; [apply lookup_set_column_same|].
  split; [reflexivity|]. split; [exact Hsim|]. split; assumption.
Qed.

(** C1, as the code has it.  On a table without rows, when the embedding of
    the query succeeds: if the table has an [embedding] column the search
    returns a table without rows, whatever [top_n]; if it has none, which is
    the table that [pd.DataFrame([])] builds, the search raises
    [KeyError('embedding')]. *)
Theorem search_on_empty_corpus prompt top_n df pe :
  embed prompt = Ok pe ->
  well_formed df -> nrows df = 0 ->
  match lookup "embedding" (columns df) with
  | Some _ =>
      exists res df',
        search prompt top_n df = (Ok res, df') /\
        nrows res = 0 /\ iterrows res = []
  | None => fst (search prompt top_n df) = Raise (KeyError "embedding")
  end.
Proof.
  intros He Hwf H0.
  destruct (lookup "embedding" (columns df)) as [cells|] eqn:Hc.
  - assert (Hcells : cells = []).
    { apply length_zero_iff_nil. rewrite <- H0.
      eapply lookup_length; [exact Hwf | exact Hc]. }
    subst cells.
    destruct (search_frames_result embeddings_create prompt top_n df pe []
                [] He Hc eq_refl)
      as (keys & indexer & Hk & Hlen & Hperm & Hrun & _).
    cbv zeta in Hrun. simpl in Hlen.
    apply length_zero_iff_nil in Hlen. subst keys. simpl in Hperm.
    apply Permutation_sym, Permutation_nil in Hperm. subst indexer.
    rewrite firstn_nil in Hrun.
    eexists; eexists. split; [exact Hrun|]. split; reflexivity.
  - now rewrite search_frames_run, He, Hc.
Qed.

(** C2, as the code has it.  A search leaves the row labels and every
    column other than [similarity] of the corpus as they were, and when it
    returns it has stored the scores it computed in the [similarity] column
    of the corpus itself. *)
Theorem search_stores_similarity_in_corpus prompt top_n df :
  let df' := snd (search prompt top_n df) in
  index df' = index df /\
  (forall key, key <> "similarity" ->
     lookup key (columns df') = lookup key (columns df)) /\
  (forall res, fst (search prompt top_n df) = Ok res ->
     exists pe cells sims,
       embed prompt = Ok pe /\
       lookup "embedding" (columns df) = Some cells /\
       rmap (similarity_to pe) cells = Ok sims /\
       lookup "similarity" (columns df') = Some sims).
Proof.
  cbv zeta. rewrite search_frames_run.
  destruct (embed prompt) as [pe|e];
    [|repeat split; auto; discriminate].
  destruct (lookup "embedding" (columns df)) as [cells|];
    [|repeat split; auto; discriminate].
  destruct (rmap (similarity_to pe) cells) as [sims|e] eqn:Hs;
    [|repeat split; auto; discriminate].
  destruct (sort_values_descending (with_similarity df sims) "similarity");
    simpl; repeat split.
  - intros key Hkey. now apply lookup_set_column_other.
  - intros res _. exists pe, cells, sims. repeat split; auto.
    apply lookup_set_column_same.
  - intros key Hkey. now apply lookup_set_column_other.
  - discriminate.
Qed.

End SearchTheorems.

(** ** A corpus of two frames *)

Lemma ten_eps_le_1 : (10 * eps <= 1)%R.
Proof.
  unfold eps.
  assert (H : (16 <= 2 ^ 52)%R).
  { change 52 with (4 + 48). rewrite pow_add.
    assert (H1 : (1 <= 2 ^ 48)%R) by (apply pow_R1_Rle; lra).
    assert (H4 : (2 ^ 4 = 16)%R) by (simpl; lra).
    rewrite H4. nra. }
  assert (Hpos : (0 < 2 ^ 52)%R) by lra.
  apply (Rmult_le_reg_r (2 ^ 52)); [exact Hpos|].
  rewrite Rmult_assoc, Rinv_l by lra. lra.
Qed.

Lemma handle_zeros_in_scale_1 : handle_zeros_in_scale 1 = 1%R.
Proof.
  unfold handle_zeros_in_scale. now destruct (Rlt_dec 1 (10 * eps)).
Qed.

Lemma normalize_unit_x : normalize [1; 0]%R = [1; 0]%R.
Proof.
  unfold normalize, row_norms, dot. simpl.
  replace (1 * 1 + (0 * 0 + 0))%R with 1%R by ring.
  rewrite sqrt_1, handle_zeros_in_scale_1. f_equal; [|f_equal]; field.
Qed.

Lemma normalize_unit_y : normalize [0; 1]%R = [0; 1]%R.
Proof.
  unfold normalize, row_norms, dot. simpl.
  replace (0 * 0 + (1 * 1 + 0))%R with 1%R by ring.
  rewrite sqrt_1, handle_zeros_in_scale_1. f_equal; [|f_equal]; field.
Qed.

Lemma similarity_same_direction :
  similarity_to [1; 0]%R (VList [1; 0]%R) = Ok (VFloat 1).
Proof.
  unfold similarity_to, as_row, rbind.
  rewrite cosine_similarity_ok by (discriminate || reflexivity).
  rewrite normalize_unit_x. unfold dot. simpl. do 2 f_equal. ring.
Qed.

Lemma similarity_orthogonal :
  similarity_to [1; 0]%R (VList [0; 1]%R) = Ok (VFloat 0).
Proof.
  unfold similarity_to, as_row, rbind.
  rewrite cosine_similarity_ok by (discriminate || reflexivity).
  rewrite normalize_unit_x, normalize_unit_y. unfold dot. simpl.
  do 2 f_equal. ring.
Qed.

Lemma Rleb_true a b : (a <= b)%R -> Rleb a b = true.
Proof. unfold Rleb. now destruct (Rle_dec a b). Qed.

Lemma Rleb_false a b : (b < a)%R -> Rleb a b = false.
Proof. unfold Rleb. destruct (Rle_dec a b); [lra | reflexivity]. Qed.

(** The embedding service answers every text with the same unit vector. *)
Definition embed_unit (model input : string) : result (list R) :=
  Ok [1; 0]%R.

Definition frame_0 (e : list R) : FrameData :=
  mkFrameData "frames/frame_0.jpg"
    "https://bucket.s3.region.amazonaws.com/frames/frame_0.jpg"
    "A man drives a red car at night." e.

Definition frame_1 (e : list R) : FrameData :=
  mkFrameData "frames/frame_1.jpg"
    "https://bucket.s3.region.amazonaws.com/frames/frame_1.jpg"
    "Two people talk in a garage." e.

(** The second frame is the closer one to the query. *)
Definition two_frames : DataFrame :=
  DataFrame_of_records [frame_0 [0; 1]%R; frame_1 [1; 0]%R].

(** Both frames are equally close to the query. *)
Definition twin_frames : DataFrame :=
  DataFrame_of_records [frame_0 [1; 0]%R; frame_1 [1; 0]%R].

(** [pd.DataFrame(columns=[...])]: the four columns and no row. *)
Definition no_rows : DataFrame :=
  mkDataFrame []
    [("frame_filename", []); ("image_url", []); ("caption", []);
     ("embedding", [])].

Ltac run_search :=
  rewrite search_frames_run; unfold get_embedding, embed_unit;
  simpl lookup; cbv iota beta;
  unfold rmap;
  rewrite ?similarity_same_direction, ?similarity_orthogonal;
  unfold rbind;
  match goal with
  | |- context [sort_values_descending
                  (with_similarity ?d [VFloat ?a; VFloat ?b])] =>
      rewrite (sort_with_similarity d [a; b])
  end;
  unfold nargsort_descending, argsort, stable_sorter, insertion_argsort;
  simpl.

Example search_two_frames :
  @search_frames embed_unit stable_sorter "a garage" 5 two_frames
  = (Ok (mkDataFrame [1; 0]%nat
           [("frame_filename",
             [VStr "frames/frame_1.jpg"; VStr "frames/frame_0.jpg"]);
            ("image_url",
             [VStr "https://bucket.s3.region.amazonaws.com/frames/frame_1.jpg";
              VStr "https://bucket.s3.region.amazonaws.com/frames/frame_0.jpg"]);
            ("caption",
             [VStr "Two people talk in a garage.";
              VStr "A man drives a red car at night."]);
            ("embedding", [VList [1; 0]%R; VList [0; 1]%R]);
            ("similarity", [VFloat 1; VFloat 0])]),
     with_similarity two_frames [VFloat 0; VFloat 1]).
Proof.
  run_search. rewrite (Rleb_false 1 0) by lra. reflexivity.
Qed.

Example search_twin_frames_stable :
  exists res,
    fst (@search_frames embed_unit stable_sorter "a car" 5 twin_frames)
    = Ok res /\
    index res = [0; 1]%nat /\
    lookup "similarity" (columns res) = Some [VFloat 1; VFloat 1].
Proof.
  eexists. run_search. rewrite (Rleb_true 1 1) by lra. simpl.
  repeat split.
Qed.

Lemma search_results_descending_witness :
  exists keys kept,
    lookup "similarity"
      (columns (snd (@search_frames embed_unit stable_sorter "a car" 5
                       twin_frames)))
    = Some (map VFloat keys) /\
    descending (map (fun p => nth p keys 0%R) kept) /\
    ties_in_order keys kept.
Proof.
  destruct search_twin_frames_stable as (res & Hres & _).
  destruct (@search_results_descending embed_unit stable_sorter "a car" 5
              twin_frames res Hres)
    as (keys & kept & Hkeys & _ & _ & Hdesc & Hties).
  exists keys, kept. split; [exact Hkeys|]. split; [exact Hdesc|].
  apply Hties, stable_sorter_is_stable.
Defined.

(** The claim C1 fails on the table that the notebook builds from no frame:
    it has no [embedding] column. *)
Lemma search_on_frameless_table_raises :
  @search_frames embed_unit stable_sorter "anything" 5
    (DataFrame_of_records [])
  = (Raise (KeyError "embedding"), DataFrame_of_records []).
Proof. reflexivity. Qed.


Lemma no_rows_well_formed : well_formed no_rows.
Proof. repeat constructor. Qed.

Lemma search_on_empty_corpus_witness :
  exists res df',
    @search_frames embed_unit stable_sorter "anything" 5 no_rows
    = (Ok res, df') /\
    nrows res = 0 /\ iterrows res = [].
Proof.
  exact (@search_on_empty_corpus embed_unit stable_sorter "anything" 5
           no_rows [1; 0]%R eq_refl no_rows_well_formed eq_refl).
Defined.

(** The claim C2 fails: after a search the corpus has a [similarity] column
    that it did not have, with the scores of the query. *)
Lemma search_modifies_the_corpus :
  let df' := snd (@search_frames embed_unit stable_sorter "a garage" 5
                    two_frames) in
  lookup "similarity" (columns two_frames) = None /\
  lookup "similarity" (columns df') = Some [VFloat 0; VFloat 1] /\
  iterrows df' <> iterrows two_frames.
Proof.
  cbv zeta. rewrite search_two_frames. simpl. repeat split.
  discriminate.
Qed.

Lemma two_frames_well_formed : well_formed two_frames.
Proof. repeat constructor. Qed.


(** ** A corpus of eight frames, on a CPU with AVX-512 *)

Lemma Rleb_IZR a b : Rleb (IZR a) (IZR b) = (a <=? b)%Z.
Proof.
  destruct (Z.leb_spec a b) as [H|H].
  - apply Rleb_true. now apply IZR_le.
  - apply Rleb_false. now apply IZR_lt.
Qed.

Definition numbered_frame (i : nat) (e : list R) : FrameData :=
  mkFrameData (frame_name "frames" i)
    ("https://bucket.s3.region.amazonaws.com/frames/frame_" ++ str_nat i
     ++ ".jpg")
    ("Scene " ++ str_nat i) e.

(** The first four frames are orthogonal to the query, the last four are
    along it. *)
Definition eight_frames : DataFrame :=
  DataFrame_of_records
    [numbered_frame 0 [0; 1]%R; numbered_frame 1 [0; 1]%R;
     numbered_frame 2 [0; 1]%R; numbered_frame 3 [0; 1]%R;
     numbered_frame 4 [1; 0]%R; numbered_frame 5 [1; 0]%R;
     numbered_frame 6 [1; 0]%R; numbered_frame 7 [1; 0]%R].

Lemma eight_frames_scores :
  rmap (similarity_to [1; 0]%R)
       [VList [0; 1]%R; VList [0; 1]%R; VList [0; 1]%R; VList [0; 1]%R;
        VList [1; 0]%R; VList [1; 0]%R; VList [1; 0]%R; VList [1; 0]%R]
  = Ok (map VFloat (map IZR [0; 0; 0; 0; 1; 1; 1; 1]%Z)).
Proof.
  unfold rmap.
  now rewrite similarity_orthogonal, similarity_same_direction.
Qed.

(** The descending sort of pandas on these scores: the array is reversed,
    the network exchanges its two halves, lane [i] with lane [7 - i], and the
    positions found are reversed. *)
Lemma avx512_nargsort_eight_frames :
  @nargsort_descending avx512_sorter
    (map IZR [0; 0; 0; 0; 1; 1; 1; 1]%Z)
  = [7; 6; 5; 4; 3; 2; 1; 0].
Proof.
  unfold nargsort_descending. cbv zeta.
  rewrite <- (map_rev IZR), length_map.
  cbn [argsort avx512_sorter].
  rewrite (avx512_argsort_map Z R Z.leb Rleb IZR Rleb_IZR 0%Z)
    by (vm_compute; reflexivity).
  vm_compute. reflexivity.
Qed.

(** Two equal scores come back in index order from the same sort. *)
Example avx512_nargsort_equal_scores :
  @nargsort_descending avx512_sorter (map IZR [1; 1]%Z) = [0; 1].
Proof.
  unfold nargsort_descending. cbv zeta.
  rewrite <- (map_rev IZR), length_map.
  cbn [argsort avx512_sorter].
  rewrite (avx512_argsort_map Z R Z.leb Rleb IZR Rleb_IZR 0%Z)
    by (vm_compute; reflexivity).
  vm_compute. reflexivity.
Qed.

Example search_eight_frames :
  @search_frames embed_unit avx512_sorter "a car" 8 eight_frames
  = (Ok (head (take (with_similarity eight_frames
                       (map VFloat (map IZR [0; 0; 0; 0; 1; 1; 1; 1]%Z)))
                    [7; 6; 5; 4; 3; 2; 1; 0])
              8),
     with_similarity eight_frames
       (map VFloat (map IZR [0; 0; 0; 0; 1; 1; 1; 1]%Z))).
Proof.
  rewrite search_frames_run. unfold get_embedding, embed_unit.
  simpl lookup. cbv iota beta.
  now rewrite eight_frames_scores, sort_with_similarity,
    avx512_nargsort_eight_frames.
Qed.

(** The claim C5 fails on its tie-break.  On a CPU with AVX-512 the default
    sort of [sort_values] returns the four frames that score 1 in the order
    7, 6, 5, 4 and the four frames that score 0 in the order 3, 2, 1, 0:
    frames with equal similarity come back against their index order. *)
Lemma ties_come_back_against_index_order :
  exists res,
    fst (@search_frames embed_unit avx512_sorter "a car" 8 eight_frames)
    = Ok res /\
    index res = [7; 6; 5; 4; 3; 2; 1; 0] /\
    lookup "similarity" (columns res)
    = Some [VFloat 1; VFloat 1; VFloat 1; VFloat 1;
            VFloat 0; VFloat 0; VFloat 0; VFloat 0] /\
    ~ ties_in_order [0; 0; 0; 0; 1; 1; 1; 1]%R (index res).
Proof.
  eexists. rewrite search_eight_frames.
  split; [reflexivity|]. split; [reflexivity|]. split; [reflexivity|].
  intros H.
  assert (Habs : 7 < 6) by (apply (H 0 1); [lia | simpl; lia | reflexivity]).
  lia.
Qed.

(** ** The annotation stage *)

Lemma rmap_all_ok {A B} (f : A -> result B) l :
  Forall (fun x => is_ok (f x) = true) l -> exists bs, rmap f l = Ok bs.
Proof.
  induction 1 as [|a l Ha _ [bs IH]]; simpl.
  - now exists [].
  - destruct (f a) as [b|]; [|discriminate]. simpl. rewrite IH. simpl. eauto.
Qed.

Lemma rmap_first_failure {A B} (f : A -> result B) done x rest e :
  Forall (fun a => is_ok (f a) = true) done ->
  f x = Raise e ->
  rmap f (done ++ x :: rest) = Raise e.
Proof.
  intros Hdone Hx. induction Hdone as [|a l Ha _ IH]; simpl.
  - now rewrite Hx.
  - destruct (f a); [|discriminate]. simpl. now rewrite IH.
Qed.

Lemma rmap_pointwise {A B} (f : A -> result B) (P : A -> B -> Prop) l bs :
  (forall a b, f a = Ok b -> P a b) ->
  rmap f l = Ok bs -> Forall2 P l bs.
Proof.
  intros Hf. revert bs. induction l as [|a l IH]; simpl; intros bs H.
  - injection H as <-. constructor.
  - destruct (f a) as [b|] eqn:Ea; simpl in H; [|discriminate].
    destruct (rmap f l) as [bs'|]; simpl in H; [|discriminate].
    injection H as <-. constructor; auto.
Qed.

Section AnnotationTheorems.

Variable embeddings_create : string -> string -> result (list R).
Variable chat_completions_create : string -> string -> result string.
Variable s3_upload_file : string -> string -> string -> result unit.
Variable s3_bucket_name : string.
Variable s3_region : string.

Local Notation "'annotate'" :=
  (process_frame embeddings_create chat_completions_create s3_upload_file
                 s3_bucket_name s3_region).
Local Notation "'run_cell'" :=
  (annotation_cell embeddings_create chat_completions_create s3_upload_file
                   s3_bucket_name s3_region).

Lemma process_frame_filename f d :
  annotate f = Ok d -> frame_filename d = f.
Proof.
  unfold process_frame, rbind.
  destruct (upload_image_to_s3 _ _ _ _ _); [|discriminate].
  destruct (generate_caption _ _); [|discriminate].
  destruct (get_embedding _ _); [|discriminate].
  intros H. injection H as <-. reflexivity.
Qed.

(** C3, as the code has it.  When every frame is annotated the corpus has
    one record per frame, in the order of the frame list.  When the
    annotation of a frame raises, the cell raises the exception of the first
    such frame of the list: [frame_data_list] stays empty and no corpus is
    assigned to [df_frames], whatever the other frames produced. *)
Theorem annotation_raises_the_first_failure frame_list g :
  (Forall (fun f => is_ok (annotate f) = true) frame_list ->
     exists records,
       run_cell frame_list g
       = (Ok tt, mkGlobals records (Some (DataFrame_of_records records))) /\
       map frame_filename records = frame_list) /\
  (forall done f rest e,
     frame_list = (done ++ f :: rest)%list ->
     Forall (fun x => is_ok (annotate x) = true) done ->
     annotate f = Raise e ->
     run_cell frame_list g = (Raise e, mkGlobals [] (df_frames g))).
Proof.
  split.
  - intros Hall. destruct (rmap_all_ok _ _ Hall) as [records Hr].
    exists records. split.
    + unfold annotation_cell, bind, modify, lift, get, executor_map_list.
      now rewrite Hr.
    + apply (rmap_pointwise _ (fun f d => frame_filename d = f)) in Hr;
        [|apply process_frame_filename].
      clear Hall.
      induction Hr as [|f d fs ds Hd _ IH]; simpl;
        [reflexivity | now rewrite Hd, IH].
  - intros done f rest e -> Hdone Hf.
    unfold annotation_cell, bind, modify, lift, get, executor_map_list.
    now rewrite (rmap_first_failure _ done f rest e Hdone Hf).
Qed.

End AnnotationTheorems.

(** *** Three frames, the caption of the second times out *)

Definition upload_ok (path bucket key : string) : result unit := Ok tt.

Definition caption_ok (model image_url : string) : result string :=
  Ok "A man drives a red car at night.".

Definition caption_times_out_on_frame_1 (model image_url : string)
  : result string :=
  if String.eqb image_url
       "https://bucket.s3.region.amazonaws.com/frames/frame_1.jpg"
  then Raise (RuntimeError "Request timed out.")
  else Ok "A man drives a red car at night.".

Definition three_frames : list string :=
  ["frames/frame_0.jpg"; "frames/frame_1.jpg"; "frames/frame_2.jpg"].

Definition no_globals : Globals := mkGlobals [] None.

(** The claim C3 fails: the first and the third frame are annotated, yet the
    cell raises and leaves no corpus. *)
Lemma one_failed_caption_aborts_the_run :
  is_ok (process_frame embed_unit caption_times_out_on_frame_1 upload_ok
           "bucket" "region" "frames/frame_0.jpg") = true /\
  is_ok (process_frame embed_unit caption_times_out_on_frame_1 upload_ok
           "bucket" "region" "frames/frame_2.jpg") = true /\
  annotation_cell embed_unit caption_times_out_on_frame_1 upload_ok
    "bucket" "region" three_frames no_globals
  = (Raise (RuntimeError "Request timed out."), mkGlobals [] None).
Proof. repeat split. Qed.

Lemma annotation_raises_the_first_failure_witness :
  annotation_cell embed_unit caption_times_out_on_frame_1 upload_ok
    "bucket" "region"
    ["frames/frame_0.jpg"; "frames/frame_1.jpg"] no_globals
  = (Raise (RuntimeError "Request timed out."), mkGlobals [] None).
Proof.
  apply (proj2 (annotation_raises_the_first_failure embed_unit
                  caption_times_out_on_frame_1 upload_ok "bucket" "region"
                  ["frames/frame_0.jpg"; "frames/frame_1.jpg"] no_globals)
               ["frames/frame_0.jpg"] "frames/frame_1.jpg"
               [] (RuntimeError "Request timed out.")).
  - reflexivity.
  - repeat constructor.
  - reflexivity.
Defined.

Example all_frames_annotated :
  exists records,
    annotation_cell embed_unit caption_ok upload_ok "bucket" "region"
      three_frames no_globals
    = (Ok tt, mkGlobals records (Some (DataFrame_of_records records))) /\
    map frame_filename records = three_frames /\
    map image_url records
    = ["https://bucket.s3.region.amazonaws.com/frames/frame_0.jpg";
       "https://bucket.s3.region.amazonaws.com/frames/frame_1.jpg";
       "https://bucket.s3.region.amazonaws.com/frames/frame_2.jpg"].
Proof. eexists. repeat split. Qed.

(** *** Further runs on the fixtures above *)

Lemma search_stores_similarity_in_corpus_witness :
  exists pe cells sims,
    get_embedding embed_unit "a garage" = Ok pe /\
    lookup "embedding" (columns two_frames) = Some cells /\
    rmap (similarity_to pe) cells = Ok sims /\
    lookup "similarity"
      (columns (snd (@search_frames embed_unit stable_sorter "a garage" 5
                       two_frames)))
    = Some sims.
Proof.
  destruct (@search_stores_similarity_in_corpus embed_unit stable_sorter
              "a garage" 5 two_frames) as (_ & _ & Hstored).
  eapply Hstored. rewrite search_two_frames. reflexivity.
Defined.

(** ** A failed detection, and the pipeline after it *)

Section DetectionFailure.

Variable Image : Type.
Variable video_manager_new : string -> result unit.
Variable video_manager_start : string -> result unit.
Variable detect_scenes : string -> result (list Scene).
Variable os_makedirs : string -> result unit.
Variable is_opened : string -> bool.
Variable frame_at : string -> nat -> option Image.
Variable imwrite_ok : string -> bool.
Variable embeddings_create : string -> string -> result (list R).
Variable chat_completions_create : string -> string -> result string.
Variable s3_upload_file : string -> string -> string -> result unit.
Variables s3_bucket_name s3_region : string.
Context {sorter : ArgSort}.

Local Notation "'run_extract'" :=
  (extract_key_frames Image video_manager_new video_manager_start
                      detect_scenes os_makedirs is_opened frame_at
                      imwrite_ok).

(** C6, as the code has it.  Once the [VideoManager] is made, a detection
    step that raises, whichever of its two calls fails and whatever the
    exception, makes [extract_key_frames] print a diagnostic and return the
    empty list instead of raising; a detection that finds no scene ends the
    same way, with its own message.  The rest of the pipeline takes the empty
    list: the annotation cell succeeds on it, but the corpus it builds has no
    row and no column, and every search on it raises [KeyError('embedding')]
    once the query is embedded. *)
Theorem detection_failure_yields_no_frames
    video_path output_dir (w : World Image) :
  video_manager_new video_path = Ok tt ->
  (forall e,
     detection_raises video_manager_start detect_scenes video_path e ->
     exists w',
       run_extract video_path output_dir w = (Ok [], w') /\
       stdout w'
       = (stdout w
          ++ [("Error during scene detection: " ++ str_exception e)%string])%list) /\
  (detection_finds video_manager_start detect_scenes video_path [] ->
     exists w',
       run_extract video_path output_dir w = (Ok [], w') /\
       stdout w'
       = (stdout w ++ ["No scenes were detected in the video."])%list) /\
  (forall g, exists df,
     annotation_cell embeddings_create chat_completions_create s3_upload_file
       s3_bucket_name s3_region [] g
     = (Ok tt, mkGlobals [] (Some df)) /\
     nrows df = 0 /\
     forall prompt top_n pe,
       get_embedding embeddings_create prompt = Ok pe ->
       fst (search_frames embeddings_create prompt top_n df)
       = Raise (KeyError "embedding")).
Proof.
  intros Hn. split; [|split].
  - intros e He.
    rewrite (extract_run_detection_raises _ _ _ _ _ _ _ _ _ _ _ _ Hn He).
    eexists. split; reflexivity.
  - intros Hd.
    rewrite (extract_run_no_scenes _ _ _ _ _ _ _ _ _ _ _ Hn Hd).
    eexists. split; reflexivity.
  - intros g. exists (DataFrame_of_records []).
    split; [reflexivity|]. split; [reflexivity|].
    intros prompt top_n pe He.
    now rewrite search_frames_run, He.
Qed.

End DetectionFailure.

Lemma detection_failure_yields_no_frames_witness :
  exists w',
    extract_key_frames nat new_ok start_fails (fun _ => Ok three_scenes)
      makedirs_ok (fun _ => true) second_unreadable write_ok
      "movie.mp4" "frames" fresh_world
    = (Ok [], w') /\
    stdout w' = ["Error during scene detection: unsupported codec"].
Proof.
  apply (proj1 (@detection_failure_yields_no_frames nat new_ok start_fails
                  (fun _ => Ok three_scenes) makedirs_ok (fun _ => true)
                  second_unreadable write_ok embed_unit caption_ok upload_ok
                  "bucket" "region" stable_sorter
                  "movie.mp4" "frames" fresh_world eq_refl)
               (RuntimeError "unsupported codec")).
  left. reflexivity.
Defined.

(** The claim C6 fails on its last clause: after a detection that failed,
    the list of frames is empty, the annotation cell builds a corpus from it
    without complaint, and the first search on that corpus raises. *)
Lemma failed_detection_makes_the_search_raise :
  fst (extract_key_frames nat new_ok start_fails (fun _ => Ok three_scenes)
         makedirs_ok (fun _ => true) second_unreadable write_ok
         "movie.mp4" "frames" fresh_world)
  = Ok [] /\
  annotation_cell embed_unit caption_ok upload_ok "bucket" "region" []
    no_globals
  = (Ok tt, mkGlobals [] (Some (DataFrame_of_records []))) /\
  fst (@search_frames embed_unit stable_sorter "a car" 5
         (DataFrame_of_records []))
  = Raise (KeyError "embedding").
Proof. repeat split. Qed.

(** * Further properties of the code *)

(** ** Key-frame extraction: files, directories and order *)

Lemma dirs_with_spec d ds :
  In d (dirs_with d ds) /\ incl ds (dirs_with d ds) /\
  (In d ds -> dirs_with d ds = ds).
Proof.
  unfold dirs_with.
  destruct (existsb (String.eqb d) ds) eqn:E.
  - apply existsb_exists in E. destruct E as [x [Hx Hd]].
    apply String.eqb_eq in Hd. subst x.
    split; [exact Hx|]. split; [apply incl_refl | reflexivity].
  - split; [apply in_or_app; right; now left|].
    split; [apply incl_appl, incl_refl|].
    intros Hin. assert (existsb (String.eqb d) ds = true); [|congruence].
    apply existsb_exists. exists d. split; [exact Hin|].
    apply String.eqb_refl.
Qed.

Section KeyFramesExtras.

Variable Image : Type.
Variable video_manager_new : string -> result unit.
Variable video_manager_start : string -> result unit.
Variable detect_scenes : string -> result (list Scene).
Variable os_makedirs : string -> result unit.
Variable is_opened : string -> bool.
Variable frame_at : string -> nat -> option Image.
Variable imwrite_ok : string -> bool.

Local Notation "'run_extract'" :=
  (extract_key_frames Image video_manager_new video_manager_start
                      detect_scenes os_makedirs is_opened frame_at
                      imwrite_ok).
Local Notation "'can_read'" := (readable Image frame_at).
Local Notation "'saved'" := (saved_frames Image frame_at).
Local Notation "'on_disk'" := (files_after Image frame_at imwrite_ok).
Local Notation "'raises'" :=
  (detection_raises video_manager_start detect_scenes).
Local Notation "'finds'" :=
  (detection_finds video_manager_start detect_scenes).
Local Notation "'run_raises'" :=
  (extract_run_detection_raises Image video_manager_new video_manager_start
     detect_scenes os_makedirs is_opened frame_at imwrite_ok).
Local Notation "'run_no_scenes'" :=
  (extract_run_no_scenes Image video_manager_new video_manager_start
     detect_scenes os_makedirs is_opened frame_at imwrite_ok).
Local Notation "'run_not_opened'" :=
  (extract_run_not_opened Image video_manager_new video_manager_start
     detect_scenes os_makedirs is_opened frame_at imwrite_ok).
Local Notation "'run_completes'" :=
  (extract_run_completes Image video_manager_new video_manager_start
     detect_scenes os_makedirs is_opened frame_at imwrite_ok).
Local Notation "'run_returns'" :=
  (extract_returns Image video_manager_new video_manager_start
     detect_scenes os_makedirs is_opened frame_at imwrite_ok).

Lemma saved_frames_indices video_path output_dir scenes :
  saved video_path output_dir scenes
  = map (frame_name output_dir)
        (map fst (filter (fun p => can_read video_path (snd p)) scenes)).
Proof.
  induction scenes as [|[i scene] rest IH]; simpl; [reflexivity|].
  destruct (can_read video_path scene); simpl; now rewrite IH.
Qed.

Lemma filter_keeps_order {A} (p : nat * A -> bool) l :
  StronglySorted lt (map fst l) ->
  StronglySorted lt (map fst (filter p l)).
Proof.
  induction l as [|x l IH]; simpl; intros Hs; [constructor|].
  inversion Hs as [|? ? Hs' Hx]; subst.
  destruct (p x); simpl; [|auto].
  constructor; [auto|].
  apply Forall_forall. intros y Hy.
  apply (proj1 (Forall_forall _ _) Hx).
  apply in_map_iff in Hy. destruct Hy as [z [<- Hz]].
  apply filter_In in Hz. apply in_map. tauto.
Qed.

Lemma saved_frames_all_readable video_path output_dir scenes :
  Forall (fun p => can_read video_path (snd p) = true) scenes ->
  saved video_path output_dir scenes
  = map (frame_name output_dir) (map fst scenes).
Proof.
  induction 1 as [|[i scene] rest Hr _ IH]; simpl; [reflexivity|].
  simpl in Hr. now rewrite Hr, IH.
Qed.

(** X1. When the video manager could be made, scenes are found,
    [os.makedirs] does not raise and the capture opens, the function returns
    with both decoder handles released, whether or not every frame could be
    read. *)
Theorem completed_extraction_releases_both_handles
    video_path output_dir (w : World Image) sl :
  video_manager_new video_path = Ok tt ->
  finds video_path sl -> sl <> [] ->
  os_makedirs output_dir = Ok tt ->
  is_opened video_path = true ->
  exists frame_list w',
    run_extract video_path output_dir w = (Ok frame_list, w') /\
    video_manager_open w' = false /\
    cap_open w' = false.
Proof.
  intros Hn Hf Hne Hm Hop.
  destruct (run_completes video_path output_dir w sl Hn Hf Hne Hm Hop)
    as (out & pos & Hrun & _).
  rewrite Hrun. eexists; eexists. repeat split.
Qed.


(** X3. The frames come back in scene order: whenever the function returns,
    the list returned is [frame_<i>.jpg] for a strictly increasing sequence
    of scene positions [i] below the number of scenes found. *)
Theorem frames_are_returned_in_scene_order
    video_path output_dir (w : World Image) frame_list w' :
  run_extract video_path output_dir w = (Ok frame_list, w') ->
  exists indices,
    frame_list = map (frame_name output_dir) indices /\
    StronglySorted lt indices /\
    forall sl, finds video_path sl ->
      Forall (fun i => i < List.length sl) indices.
Proof.
  intros Hrun.
  destruct (run_returns _ _ _ _ _ Hrun)
    as [(-> & _)|(sl & out & pos & Hf & Hne & Hop & -> & _)].
  - exists []. repeat split; constructor.
  - rewrite saved_frames_indices.
    eexists. split; [reflexivity|]. split.
    + apply filter_keeps_order. rewrite enumerate_fst.
      apply seq_strongly_sorted.
    + intros sl' Hf'.
      rewrite (finds_unique _ _ _ _ _ Hf' Hf).
      apply Forall_forall. intros i Hi.
      apply in_map_iff in Hi. destruct Hi as [[j sc] [<- Hj]].
      apply filter_In in Hj. destruct Hj as [Hj _].
      apply (in_map fst) in Hj. rewrite enumerate_fst in Hj.
      apply in_seq in Hj. simpl in *. lia.
Qed.

(** X4. When the video manager could be made, [os.makedirs] does not raise,
    the capture opens and the first frame of every scene can be read, there
    is exactly one frame per scene: the list returned is [frame_0.jpg], ...,
    [frame_<n-1>.jpg] for the [n] scenes found. *)
Theorem readable_scenes_give_one_frame_each
    video_path output_dir (w : World Image) sl :
  video_manager_new video_path = Ok tt ->
  finds video_path sl ->
  (sl <> [] -> os_makedirs output_dir = Ok tt) ->
  is_opened video_path = true ->
  Forall (fun scene => can_read video_path scene = true) sl ->
  fst (run_extract video_path output_dir w)
  = Ok (map (frame_name output_dir) (seq 0 (List.length sl))).
Proof.
  intros Hn Hf Hm Hop Hall.
  destruct sl as [|s l].
  - now rewrite (run_no_scenes video_path output_dir w Hn Hf).
  - assert (Hne : s :: l <> []) by discriminate.
    destruct (run_completes video_path output_dir w (s :: l) Hn Hf Hne
                (Hm Hne) Hop) as (out & pos & Hrun & _).
    rewrite Hrun. cbn [fst].
    rewrite saved_frames_all_readable, enumerate_fst; [reflexivity|].
    apply Forall_forall. intros [i sc] Hin. simpl.
    apply enumerate_In, nth_error_In in Hin.
    exact (proj1 (Forall_forall _ _) Hall sc Hin).
Qed.

(** X5. When the detection step raises or finds no scene, nothing is touched
    on disk and no OpenCV capture is made: the directories, the files and
    the capture are as before the call. *)
Theorem no_scene_leaves_the_disk_untouched
    video_path output_dir (w : World Image) :
  (exists e, raises video_path e) \/ finds video_path [] ->
  dirs (snd (run_extract video_path output_dir w)) = dirs w /\
  files (snd (run_extract video_path output_dir w)) = files w /\
  cap_open (snd (run_extract video_path output_dir w)) = cap_open w /\
  cap_pos (snd (run_extract video_path output_dir w)) = cap_pos w.
Proof.
  intros H.
  destruct (video_manager_new video_path) as [[]|e'] eqn:Hn.
  - destruct H as [[e He]|Hnone].
    + rewrite (run_raises video_path output_dir w e Hn He). repeat split.
    + rewrite (run_no_scenes video_path output_dir w Hn Hnone). repeat split.
  - rewrite (extract_run_constructor_raises Image video_manager_new
               video_manager_start detect_scenes os_makedirs is_opened
               frame_at imwrite_ok video_path output_dir w e' Hn).
    repeat split.
Qed.

(** X6. As soon as a scene is found, and provided the video manager could be
    made and [os.makedirs] does not raise, the output directory exists when
    the function returns, also when the capture then cannot be opened; the
    directories that were there are kept, and a directory that was already
    there is not added again. *)
Theorem found_scenes_create_the_output_directory
    video_path output_dir (w : World Image) sl :
  video_manager_new video_path = Ok tt ->
  finds video_path sl -> sl <> [] ->
  os_makedirs output_dir = Ok tt ->
  let ds := dirs (snd (run_extract video_path output_dir w)) in
  In output_dir ds /\ incl (dirs w) ds /\
  (In output_dir (dirs w) -> ds = dirs w).
Proof.
  intros Hn Hf Hne Hm. cbv zeta.
  destruct (is_opened video_path) eqn:Hop.
  - destruct (run_completes video_path output_dir w sl Hn Hf Hne Hm Hop)
      as (out & pos & Hrun & _).
    rewrite Hrun. apply dirs_with_spec.
  - rewrite (run_not_opened video_path output_dir w sl Hn Hf Hne Hm Hop).
    apply dirs_with_spec.
Qed.

End KeyFramesExtras.




Lemma completed_extraction_releases_both_handles_witness :
  exists frame_list w',
    extract_key_frames nat new_ok start_ok (fun _ => Ok three_scenes)
      makedirs_ok (fun _ => true) second_unreadable write_ok
      "movie.mp4" "frames" fresh_world
    = (Ok frame_list, w') /\
    video_manager_open w' = false /\
    cap_open w' = false.
Proof.
  apply (completed_extraction_releases_both_handles nat new_ok start_ok
           (fun _ => Ok three_scenes) makedirs_ok (fun _ => true)
           second_unreadable write_ok "movie.mp4" "frames" fresh_world
           three_scenes).
  - reflexivity.
  - split; reflexivity.
  - discriminate.
  - reflexivity.
  - reflexivity.
Defined.


Lemma frames_are_returned_in_scene_order_witness :
  exists indices,
    ["frames/frame_0.jpg"; "frames/frame_2.jpg"]
    = map (frame_name "frames") indices /\
    StronglySorted lt indices.
Proof.
  destruct (frames_are_returned_in_scene_order nat new_ok start_ok
              (fun _ => Ok three_scenes) makedirs_ok (fun _ => true)
              second_unreadable write_ok "movie.mp4" "frames" fresh_world
              _ _ three_scenes_run) as (indices & Hlist & Hsorted & _).
  exists indices. split; [exact Hlist | exact Hsorted].
Defined.

Lemma readable_scenes_give_one_frame_each_witness :
  fst (extract_key_frames nat new_ok start_ok (fun _ => Ok three_scenes)
         makedirs_ok (fun _ => true) every_frame write_ok
         "movie.mp4" "frames" fresh_world)
  = Ok ["frames/frame_0.jpg"; "frames/frame_1.jpg"; "frames/frame_2.jpg"].
Proof.
  apply (readable_scenes_give_one_frame_each nat new_ok start_ok
           (fun _ => Ok three_scenes) makedirs_ok (fun _ => true)
           every_frame write_ok "movie.mp4" "frames" fresh_world
           three_scenes).
  - reflexivity.
  - split; reflexivity.
  - intros _. reflexivity.
  - reflexivity.
  - repeat constructor.
Defined.

Lemma no_scene_leaves_the_disk_untouched_witness :
  dirs (snd (extract_key_frames nat new_ok start_fails
               (fun _ => Ok three_scenes) makedirs_ok (fun _ => true)
               every_frame write_ok "movie.mp4" "frames" fresh_world))
  = [] /\
  files (snd (extract_key_frames nat new_ok start_fails
                (fun _ => Ok three_scenes) makedirs_ok (fun _ => true)
                every_frame write_ok "movie.mp4" "frames" fresh_world))
  = [] /\
  cap_open (snd (extract_key_frames nat new_ok start_fails
                   (fun _ => Ok three_scenes) makedirs_ok (fun _ => true)
                   every_frame write_ok "movie.mp4" "frames" fresh_world))
  = false /\
  cap_pos (snd (extract_key_frames nat new_ok start_fails
                  (fun _ => Ok three_scenes) makedirs_ok (fun _ => true)
                  every_frame write_ok "movie.mp4" "frames" fresh_world))
  = 0.
Proof.
  apply (no_scene_leaves_the_disk_untouched nat new_ok start_fails
           (fun _ => Ok three_scenes) makedirs_ok (fun _ => true)
           every_frame write_ok "movie.mp4" "frames" fresh_world).
  left. exists (RuntimeError "unsupported codec"). left. reflexivity.
Defined.

Lemma found_scenes_create_the_output_directory_witness :
  In "frames"
     (dirs (snd (extract_key_frames nat new_ok start_ok
                   (fun _ => Ok three_scenes) makedirs_ok (fun _ => false)
                   every_frame write_ok "movie.mp4" "frames" fresh_world))).
Proof.
  refine (proj1 (found_scenes_create_the_output_directory nat new_ok
                   start_ok (fun _ => Ok three_scenes) makedirs_ok
                   (fun _ => false) every_frame write_ok
                   "movie.mp4" "frames" fresh_world three_scenes _ _ _ _)).
  - reflexivity.
  - split; reflexivity.
  - discriminate.
  - reflexivity.
Defined.

(** ** Paths: [os.path.basename] and [os.path.join] *)

Definition has_sep (s : string) : bool :=
  existsb (Ascii.eqb sep) (list_ascii_of_string s).

Lemma has_sep_append a b : has_sep (a ++ b) = has_sep a || has_sep b.
Proof.
  unfold has_sep. rewrite list_ascii_of_append. apply existsb_app.
Qed.

Lemma has_sep_cons c s :
  has_sep (String c s) = Ascii.eqb c sep || has_sep s.
Proof.
  unfold has_sep. cbn [list_ascii_of_string existsb].
  now rewrite (Ascii.eqb_sym sep c).
Qed.

Lemma basename_cons c p :
  basename (String c p)
  = if Ascii.eqb c sep then basename p
    else if has_sep p then basename p else String c p.
Proof. reflexivity. Qed.

Lemma basename_no_sep p : has_sep p = false -> basename p = p.
Proof.
  destruct p as [|c p]; [reflexivity|].
  rewrite has_sep_cons, basename_cons.
  destruct (Ascii.eqb c sep); cbn [orb]; [discriminate|].
  now intros ->.
Qed.

Lemma basename_after_sep a b : basename (a ++ String sep b) = basename b.
Proof.
  induction a as [|c a IH].
  - cbn [append]. rewrite basename_cons. now rewrite Ascii.eqb_refl.
  - cbn [append]. rewrite basename_cons.
    destruct (Ascii.eqb c sep); [exact IH|].
    rewrite has_sep_append, has_sep_cons, Ascii.eqb_refl.
    cbn [orb]. rewrite Bool.orb_true_r. exact IH.
Qed.

Lemma endswith_sep_split a :
  endswith_sep a = true -> exists a0, a = a0 ++ String sep EmptyString.
Proof.
  induction a as [|c a IH]; [discriminate|].
  destruct a as [|c' a'].
  - cbn [endswith_sep]. intros H. apply Ascii.eqb_eq in H. subst c.
    now exists EmptyString.
  - intros H. change (endswith_sep (String c' a') = true) in H.
    destruct (IH H) as [a0 Ha0].
    exists (String c a0). cbn [append]. now rewrite <- Ha0.
Qed.

Lemma append_assoc (a b c : string) : (a ++ b) ++ c = a ++ (b ++ c).
Proof.
  induction a as [|x a IH]; cbn [append]; [reflexivity | now rewrite IH].
Qed.

Lemma basename_has_no_sep p : has_sep (basename p) = false.
Proof.
  induction p as [|c p IH]; [reflexivity|].
  rewrite basename_cons.
  destruct (Ascii.eqb c sep) eqn:Ec; [exact IH|].
  destruct (has_sep p) eqn:Ep; [exact IH|].
  now rewrite has_sep_cons, Ec, Ep.
Qed.

Lemma no_sep_start name : has_sep name = false -> startswith_sep name = false.
Proof.
  destruct name as [|c name]; [reflexivity|].
  rewrite has_sep_cons. cbn [startswith_sep].
  now destruct (Ascii.eqb c sep).
Qed.

Lemma basename_path_join dir name :
  has_sep name = false -> basename (path_join dir name) = name.
Proof.
  intros Hname. unfold path_join.
  rewrite (no_sep_start name Hname).
  destruct dir as [|c dir].
  - cbn [orb append]. now apply basename_no_sep.
  - cbn [orb]. destruct (endswith_sep (String c dir)) eqn:Eend.
    + destruct (endswith_sep_split _ Eend) as [a0 ->].
      rewrite append_assoc. cbn [append].
      rewrite basename_after_sep. now apply basename_no_sep.
    + rewrite basename_after_sep. now apply basename_no_sep.
Qed.

(** X7. [os.path.basename] returns a name without separator, and it undoes
    [os.path.join]: joining any directory with a file name that has no
    separator and taking the base name gives the file name back. *)
Theorem basename_of_join dir name :
  has_sep (basename (path_join dir name)) = false /\
  (has_sep name = false -> basename (path_join dir name) = name).
Proof.
  split; [apply basename_has_no_sep | apply basename_path_join].
Qed.

Lemma basename_of_join_witness :
  basename (path_join "out/frames/" "frame_12.jpg") = "frame_12.jpg".
Proof.
  apply (proj2 (basename_of_join "out/frames/" "frame_12.jpg")).
  reflexivity.
Defined.

(** ** Publishing the frames *)

Lemma string_of_uint_no_sep d : has_sep (NilEmpty.string_of_uint d) = false.
Proof.
  induction d; cbn [NilEmpty.string_of_uint]; [reflexivity|..];
    rewrite has_sep_cons, IHd; reflexivity.
Qed.

Lemma frame_file_no_sep i :
  has_sep ("frame_" ++ str_nat i ++ ".jpg") = false.
Proof.
  rewrite !has_sep_append. unfold str_nat.
  rewrite string_of_uint_no_sep. reflexivity.
Qed.

Lemma basename_frame_name output_dir i :
  basename (frame_name output_dir i) = "frame_" ++ str_nat i ++ ".jpg".
Proof.
  unfold frame_name. apply basename_path_join, frame_file_no_sep.
Qed.

Section UploadFacts.

Variable s3_upload_file : string -> string -> string -> result unit.
Variable s3_region : string.

Local Notation "'upload'" := (upload_image_to_s3 s3_upload_file s3_region).

Definition frame_url (s3_bucket s3_folder : string) (i : nat) : string :=
  "https://" ++ s3_bucket ++ ".s3." ++ s3_region ++ ".amazonaws.com/"
  ++ s3_folder ++ "/" ++ "frame_" ++ str_nat i ++ ".jpg".

Lemma upload_frame output_dir i s3_bucket s3_folder :
  upload (frame_name output_dir i) s3_bucket s3_folder
  = rbind (s3_upload_file (frame_name output_dir i) s3_bucket
             (s3_folder ++ "/" ++ "frame_" ++ str_nat i ++ ".jpg"))
          (fun _ => Ok (frame_url s3_bucket s3_folder i)).
Proof.
  unfold upload_image_to_s3. now rewrite basename_frame_name.
Qed.

Lemma frame_url_inj s3_bucket s3_folder i j :
  frame_url s3_bucket s3_folder i = frame_url s3_bucket s3_folder j ->
  i = j.
Proof.
  unfold frame_url. intros H.
  do 8 apply append_inv_head in H.
  now apply append_inv_tail, str_nat_inj in H.
Qed.

(** X8. A frame file written by [extract_key_frames] is uploaded under the
    key [<folder>/frame_<i>.jpg], whatever its output directory: the URLs of
    two uploaded frames are equal exactly when their scene positions are, so
    the frames of one run never collide, and a frame of another output
    directory with the same position takes the same key. *)
Theorem uploaded_frames_collide_only_on_position
    output_dir output_dir' i j s3_bucket s3_folder url url' :
  upload (frame_name output_dir i) s3_bucket s3_folder = Ok url ->
  upload (frame_name output_dir' j) s3_bucket s3_folder = Ok url' ->
  url = frame_url s3_bucket s3_folder i /\ (url = url' <-> i = j).
Proof.
  rewrite !upload_frame. unfold rbind.
  destruct (s3_upload_file _ _ _); [|discriminate].
  destruct (s3_upload_file _ _ _); [|discriminate].
  intros H H'. injection H as <-. injection H' as <-.
  split; [reflexivity|]. split.
  - apply frame_url_inj.
  - now intros ->.
Qed.

End UploadFacts.

Lemma uploaded_frames_collide_only_on_position_witness :
  "https://bucket.s3.region.amazonaws.com/frames/frame_1.jpg"
  = frame_url "region" "bucket" "frames" 1 /\
  ("https://bucket.s3.region.amazonaws.com/frames/frame_1.jpg"
   = "https://bucket.s3.region.amazonaws.com/frames/frame_1.jpg" <-> 1 = 1).
Proof.
  apply (uploaded_frames_collide_only_on_position upload_ok "region"
           "frames" "other" 1 1 "bucket" "frames"); reflexivity.
Defined.

(** ** Cosine similarity: symmetry *)

Lemma dot_comm x y : dot x y = dot y x.
Proof.
  unfold dot. revert y.
  induction x as [|a x IH]; intros [|b y]; simpl; try reflexivity.
  rewrite IH. ring.
Qed.

(** X9. The score that [search_frames] computes for an embedding does not
    depend on which of the two vectors is the query: exchanging the stored
    embedding and the query embedding gives the same score, or a
    [ValueError] both ways. *)
Theorem similarity_is_symmetric (q e : list R) :
  (exists s,
     similarity_to q (VList e) = Ok (VFloat s) /\
     similarity_to e (VList q) = Ok (VFloat s)) \/
  (exists msg msg',
     similarity_to q (VList e) = Raise (ValueError msg) /\
     similarity_to e (VList q) = Raise (ValueError msg')).
Proof.
  unfold similarity_to, as_row, rbind, cosine_similarity.
  rewrite (Bool.orb_comm (List.length q =? 0)%nat).
  rewrite (Nat.eqb_sym (List.length q) (List.length e)).
  destruct ((List.length e =? 0)%nat || (List.length q =? 0)%nat);
    [right; eauto|].
  destruct (negb (List.length e =? List.length q)%nat); [right; eauto|].
  left. eexists. split; [reflexivity|]. now rewrite dot_comm.
Qed.

Lemma similarity_to_raises pe c e :
  similarity_to pe c = Raise e -> exists msg, e = ValueError msg.
Proof.
  unfold similarity_to, rbind, as_row, cosine_similarity.
  destruct c as [s|xs|r];
    repeat match goal with
           | |- context [if ?b then _ else _] => destruct b
           end;
    intros H; try discriminate; injection H as <-; eauto.
Qed.

Lemma rmap_raises {A B} (f : A -> result B) l e :
  rmap f l = Raise e -> exists a, In a l /\ f a = Raise e.
Proof.
  induction l as [|a l IH]; simpl; [discriminate|].
  destruct (f a) as [b|e'] eqn:Ea; simpl.
  - destruct (rmap f l) as [bs|e']; simpl; [discriminate|].
    intros H. injection H as ->.
    destruct (IH eq_refl) as [a' [Hin Ha']]. eauto.
  - intros H. injection H as ->. eauto.
Qed.

Lemma set_column_twice key vs vs' cols :
  set_column key vs' (set_column key vs cols) = set_column key vs' cols.
Proof.
  induction cols as [|[k old] cols IH]; simpl.
  - now rewrite String.eqb_refl.
  - destruct (String.eqb k key) eqn:E; simpl; rewrite E;
      [reflexivity | now rewrite IH].
Qed.

Lemma set_column_names key vs cols :
  map fst (set_column key vs cols)
  = match lookup key cols with
    | Some _ => map fst cols
    | None => (map fst cols ++ [key])%list
    end.
Proof.
  induction cols as [|[k old] cols IH]; simpl; [reflexivity|].
  destruct (String.eqb k key) eqn:E; simpl; [reflexivity|].
  rewrite IH. now destruct (lookup key cols).
Qed.

Lemma set_column_well_formed key vs df :
  well_formed df -> List.length vs = nrows df ->
  well_formed (mkDataFrame (index df) (set_column key vs (columns df))).
Proof.
  unfold well_formed, nrows. simpl. intros Hwf Hvs.
  induction Hwf as [|[k old] cols Hc Hcols IH]; simpl.
  - now repeat constructor.
  - destruct (String.eqb k key); constructor; auto.
Qed.

Lemma descending_pairwise l :
  descending l ->
  forall u v, u <= v -> v < List.length l -> (nth v l 0 <= nth u l 0)%R.
Proof.
  intros Hd u v Huv Hv.
  induction v as [|v IH]; [replace u with 0 by lia; lra|].
  destruct (Nat.eq_dec u (S v)) as [->|Hne]; [lra|].
  apply Rle_trans with (nth v l 0%R); [|apply IH; lia].
  apply Rge_le, Hd. lia.
Qed.

(** ** Search: errors, repeated searches, columns and the best rows *)

Section SearchExtras.

Variable embeddings_create : string -> string -> result (list R).
Context {sorter : ArgSort}.

Local Notation "'search'" := (search_frames embeddings_create).
Local Notation "'embed'" := (get_embedding embeddings_create).

(** Searching a corpus that carries the scores of an earlier search. *)
Lemma search_after_search prompt top_n df old :
  fst (search prompt top_n (with_similarity df old))
  = fst (search prompt top_n df) /\
  (is_ok (fst (search prompt top_n df)) = true ->
   snd (search prompt top_n (with_similarity df old))
   = snd (search prompt top_n df)).
Proof.
  rewrite (search_frames_run embeddings_create prompt top_n
             (with_similarity df old)).
  rewrite (search_frames_run embeddings_create prompt top_n df).
  assert (Hl : lookup "embedding" (columns (with_similarity df old))
               = lookup "embedding" (columns df)).
  { unfold with_similarity. cbn [columns].
    apply lookup_set_column_other. discriminate. }
  rewrite Hl.
  destruct (embed prompt) as [pe|e]; [|split; [reflexivity | discriminate]].
  destruct (lookup "embedding" (columns df)) as [cells|];
    [|split; [reflexivity | discriminate]].
  destruct (rmap (similarity_to pe) cells) as [sims|e] eqn:Hs;
    [|split; [reflexivity | discriminate]].
  assert (E : with_similarity (with_similarity df old) sims
              = with_similarity df sims).
  { unfold with_similarity. simpl. now rewrite set_column_twice. }
  rewrite E.
  destruct (sort_values_descending (with_similarity df sims) "similarity");
    split; reflexivity.
Qed.

(** X11. When [search_frames] raises, the corpus is as it was before the
    call, and the exception is the one of the embedding service, a
    [KeyError] for the missing [embedding] column, or a [ValueError] for a
    cell that cannot be compared with the query embedding. *)
Theorem failed_search_leaves_the_corpus_untouched prompt top_n df e :
  fst (search_frames embeddings_create prompt top_n df) = Raise e ->
  snd (search_frames embeddings_create prompt top_n df) = df /\
  (get_embedding embeddings_create prompt = Raise e \/
   e = KeyError "embedding" \/
   exists msg, e = ValueError msg).
Proof.
  rewrite search_frames_run.
  destruct (embed prompt) as [pe|e'].
  2:{ simpl. intros H. injection H as ->. auto. }
  destruct (lookup "embedding" (columns df)) as [cells|].
  2:{ simpl. intros H. injection H as <-. auto. }
  destruct (rmap (similarity_to pe) cells) as [sims|e'] eqn:Hs.
  - destruct (similarity_cells _ _ _ Hs) as [keys [-> _]].
    rewrite sort_with_similarity. discriminate.
  - simpl. intros H. injection H as ->. split; [reflexivity|].
    right; right.
    destruct (rmap_raises _ _ _ Hs) as [c [_ Hc]].
    exact (similarity_to_raises _ _ _ Hc).
Qed.

(** X12. The [similarity] column that a search leaves in the corpus has no
    influence on the next search: after a search that returned, any search
    gives the result, or the exception, that it would have given on the
    original corpus, and when it returns it leaves the same corpus. *)
Theorem earlier_searches_do_not_matter prompt top_n prompt' top_n' df res :
  fst (search prompt top_n df) = Ok res ->
  let df' := snd (search prompt top_n df) in
  fst (search prompt' top_n' df') = fst (search prompt' top_n' df) /\
  (is_ok (fst (search prompt' top_n' df)) = true ->
   snd (search prompt' top_n' df') = snd (search prompt' top_n' df)).
Proof.
  intros Hok. cbv zeta.
  destruct (search_frames_inv embeddings_create prompt top_n df res Hok)
    as (pe & cells & sims & He & Hc & Hs).
  destruct (search_frames_ok embeddings_create prompt top_n df pe cells sims
              He Hc Hs) as [keys [-> Hrun]].
  rewrite Hrun. cbn [snd].
  apply (search_after_search prompt' top_n' df (map VFloat keys)).
Qed.

End SearchExtras.

Section SearchExtrasMore.

Variable embeddings_create : string -> string -> result (list R).
Context {sorter : ArgSort}.

Local Notation "'search'" := (search_frames embeddings_create).
Local Notation "'embed'" := (get_embedding embeddings_create).

(** The normal return of [search_frames], with the positions it keeps. *)
Lemma search_frames_kept prompt top_n df res :
  fst (search prompt top_n df) = Ok res ->
  exists pe cells keys,
    embed prompt = Ok pe /\
    lookup "embedding" (columns df) = Some cells /\
    rmap (similarity_to pe) cells = Ok (map VFloat keys) /\
    snd (search prompt top_n df) = with_similarity df (map VFloat keys) /\
    res = take (with_similarity df (map VFloat keys))
               (firstn (head_count (List.length keys) top_n)
                       (nargsort_descending keys)).
Proof.
  intros Hok.
  destruct (search_frames_inv embeddings_create prompt top_n df res Hok)
    as (pe & cells & sims & He & Hc & Hs).
  destruct (search_frames_ok embeddings_create prompt top_n df pe cells sims
              He Hc Hs) as [keys [-> Hrun]].
  rewrite Hrun in *. cbn [fst snd] in *. injection Hok as <-.
  exists pe, cells, keys. repeat split; auto.
  now rewrite head_take_any, nargsort_descending_length.
Qed.

(** X13. Searching twice with the same query and [top_n] changes nothing:
    the second search returns the same table and leaves the corpus as the
    first search left it. *)
Theorem repeated_search_is_idempotent prompt top_n df res :
  fst (search_frames embeddings_create prompt top_n df) = Ok res ->
  search_frames embeddings_create prompt top_n
    (snd (search_frames embeddings_create prompt top_n df))
  = (Ok res, snd (search_frames embeddings_create prompt top_n df)).
Proof.
  intros Hok.
  destruct (search_frames_kept prompt top_n df res Hok)
    as (pe & cells & keys & _ & _ & _ & Hsnd & _).
  rewrite Hsnd at 1.
  destruct (search_after_search embeddings_create prompt top_n df
              (map VFloat keys)) as [Hfst Hcorpus].
  rewrite Hok in Hfst, Hcorpus. specialize (Hcorpus eq_refl).
  rewrite (surjective_pairing
             (search prompt top_n (with_similarity df (map VFloat keys)))).
  now rewrite Hfst, Hcorpus.
Qed.

(** X14. After a search that returned, the corpus is still a well-formed
    table with the same rows; its columns are those it had, followed by
    [similarity] if it had no such column; and the result carries the same
    columns as the corpus, [similarity] included. *)
Theorem search_keeps_the_table_shape prompt top_n df res :
  well_formed df ->
  fst (search prompt top_n df) = Ok res ->
  let df' := snd (search prompt top_n df) in
  well_formed df' /\ nrows df' = nrows df /\
  map fst (columns df')
  = match lookup "similarity" (columns df) with
    | Some _ => map fst (columns df)
    | None => (map fst (columns df) ++ ["similarity"])%list
    end /\
  well_formed res /\
  map fst (columns res) = map fst (columns df').
Proof.
  intros Hwf Hok. cbv zeta.
  destruct (search_frames_kept prompt top_n df res Hok)
    as (pe & cells & keys & _ & Hc & Hs & -> & ->).
  assert (Hlen : List.length (map VFloat keys) = nrows df).
  { rewrite (rmap_length _ _ _ Hs).
    eapply lookup_length; [exact Hwf | exact Hc]. }
  split; [now apply set_column_well_formed|].
  split; [reflexivity|].
  split; [apply set_column_names|].
  split; [apply take_well_formed|].
  unfold take. cbn [columns]. rewrite map_map. reflexivity.
Qed.

(** X15. [top_n] is not checked.  With [top_n = 0] a search that returns
    gives a table without rows; with a negative [top_n] it gives all rows
    but the [-top_n] least similar ones. *)
Theorem search_with_non_positive_top_n prompt top_n df res :
  (top_n <= 0)%Z ->
  well_formed df ->
  fst (search prompt top_n df) = Ok res ->
  nrows res
  = if (top_n =? 0)%Z then 0 else nrows df - Z.to_nat (- top_n).
Proof.
  intros Hn Hwf Hok.
  destruct (search_frames_kept prompt top_n df res Hok)
    as (pe & cells & keys & _ & Hc & Hs & _ & ->).
  assert (Hlen : List.length keys = nrows df).
  { apply rmap_length in Hs. rewrite length_map in Hs. rewrite Hs.
    eapply lookup_length; [exact Hwf | exact Hc]. }
  unfold nrows at 1, take. cbn [index].
  rewrite length_map, length_firstn, nargsort_descending_length, Hlen.
  unfold head_count.
  destruct (Z.eqb_spec top_n 0) as [->|Hne].
  - reflexivity.
  - destruct (Z.leb_spec 0 top_n); lia.
Qed.

(** X16. The rows returned are the best ones: the result is made of the
    corpus rows at the positions [kept], the other positions are [dropped],
    and no dropped row has a higher score than a kept one. *)
Theorem search_keeps_the_most_similar_rows prompt top_n df res :
  well_formed df ->
  fst (search prompt top_n df) = Ok res ->
  exists keys kept dropped,
    lookup "similarity" (columns (snd (search prompt top_n df)))
    = Some (map VFloat keys) /\
    res = take (snd (search prompt top_n df)) kept /\
    Permutation (kept ++ dropped) (seq 0 (nrows df)) /\
    forall p q, In p kept -> In q dropped ->
      (nth q keys 0 <= nth p keys 0)%R.
Proof.
  intros Hwf Hok.
  destruct (search_frames_kept prompt top_n df res Hok)
    as (pe & cells & keys & _ & Hc & Hs & -> & ->).
  assert (Hlen : List.length keys = nrows df).
  { apply rmap_length in Hs. rewrite length_map in Hs. rewrite Hs.
    eapply lookup_length; [exact Hwf | exact Hc]. }
  set (k := head_count (List.length keys) top_n).
  set (ix := nargsort_descending keys).
  exists keys, (firstn k ix), (skipn k ix).
  split; [apply lookup_set_column_same|]. split; [reflexivity|].
  split.
  { rewrite firstn_skipn, <- Hlen. apply nargsort_descending_perm. }
  intros p q Hp Hq.
  destruct (In_nth _ _ 0%nat Hp) as [u [Hu <-]].
  destruct (In_nth _ _ 0%nat Hq) as [v [Hv <-]].
  rewrite length_firstn in Hu. rewrite length_skipn in Hv.
  rewrite nth_firstn. destruct (Nat.ltb_spec u k); [|lia].
  rewrite nth_skipn.
  pose proof (descending_pairwise _ (nargsort_descending_sorted keys)
                u (k + v) ltac:(lia)) as Hd.
  rewrite length_map in Hd. fold ix in Hd.
  specialize (Hd ltac:(lia)).
  assert (Hnth : forall j, j < List.length ix ->
            nth j (map (fun p => nth p keys 0%R) ix) 0%R
            = nth (nth j ix 0%nat) keys 0%R).
  { intros j Hj.
    rewrite (nth_indep _ 0%R (nth 0%nat keys 0%R))
      by now rewrite length_map.
    apply (map_nth (fun p => nth p keys 0%R)). }
  rewrite !Hnth in Hd by lia. exact Hd.
Qed.

End SearchExtrasMore.

(** ** From the annotation to the search *)

Lemma DataFrame_of_records_well_formed l :
  well_formed (DataFrame_of_records l).
Proof.
  destruct l as [|d l]; [constructor|].
  unfold well_formed, DataFrame_of_records, nrows. cbn [columns index].
  rewrite length_seq.
  repeat constructor; cbn [snd]; now rewrite length_map.
Qed.

Lemma DataFrame_of_records_nrows l :
  nrows (DataFrame_of_records l) = List.length l.
Proof.
  destruct l as [|d l]; [reflexivity|].
  unfold nrows, DataFrame_of_records. cbn [index]. apply length_seq.
Qed.

Lemma DataFrame_of_records_embedding l :
  l <> [] ->
  lookup "embedding" (columns (DataFrame_of_records l))
  = Some (map (fun d => VList (embedding d)) l).
Proof. destruct l as [|d l]; [congruence | reflexivity]. Qed.

Section PipelineExtras.

Variable embeddings_create : string -> string -> result (list R).
Variable chat_completions_create : string -> string -> result string.
Variable s3_upload_file : string -> string -> string -> result unit.
Variable s3_bucket_name : string.
Variable s3_region : string.
Context {sorter : ArgSort}.

Local Notation "'annotate'" :=
  (process_frame embeddings_create chat_completions_create s3_upload_file
                 s3_bucket_name s3_region).
Local Notation "'run_cell'" :=
  (annotation_cell embeddings_create chat_completions_create s3_upload_file
                   s3_bucket_name s3_region).
Local Notation "'search'" := (search_frames embeddings_create).
Local Notation "'embed'" := (get_embedding embeddings_create).
Local Notation "'describe'" := (generate_caption chat_completions_create).
Local Notation "'upload'" := (upload_image_to_s3 s3_upload_file s3_region).

Lemma process_frame_steps f d :
  annotate f = Ok d ->
  frame_filename d = f /\
  upload f s3_bucket_name "frames" = Ok (image_url d) /\
  describe (image_url d) = Ok (caption d) /\
  embed (caption d) = Ok (embedding d).
Proof.
  unfold process_frame, rbind.
  destruct (upload f s3_bucket_name "frames") as [url|]; [|discriminate].
  destruct (describe url) as [text|] eqn:Ht; [|discriminate].
  destruct (embed text) as [v|] eqn:Hv; [|discriminate].
  intros H. injection H as <-. cbn. auto.
Qed.

Lemma annotation_cell_ok frame_list g records :
  rmap annotate frame_list = Ok records ->
  run_cell frame_list g
  = (Ok tt, mkGlobals records (Some (DataFrame_of_records records))).
Proof.
  intros Hr.
  unfold annotation_cell, bind, modify, lift, get, executor_map_list.
  now rewrite Hr.
Qed.

Lemma search_row_count prompt top_n df res :
  (0 <= top_n)%Z -> well_formed df ->
  fst (search prompt top_n df) = Ok res ->
  nrows res = Nat.min (Z.to_nat top_n) (nrows df).
Proof.
  intros Hn Hwf Hok.
  destruct (search_frames_kept embeddings_create prompt top_n df res Hok)
    as (pe & cells & keys & _ & Hc & Hs & _ & ->).
  assert (Hlen : List.length keys = nrows df).
  { apply rmap_length in Hs. rewrite length_map in Hs. rewrite Hs.
    eapply lookup_length; [exact Hwf | exact Hc]. }
  unfold nrows at 1, take. cbn [index].
  rewrite length_map, length_firstn, nargsort_descending_length, Hlen.
  unfold head_count. destruct (Z.leb_spec 0 top_n); [reflexivity | lia].
Qed.

(** X19. The corpus that the annotation cell builds from a list of frames
    that were all annotated can be searched: if the embedding service
    returns vectors of one dimension, not zero, a search with a positive
    [top_n] returns [min top_n (number of frames)] rows. *)
Theorem annotated_corpus_can_be_searched
    frame_list g prompt (top_n : Z) pe (dim : nat) :
  frame_list <> [] ->
  Forall (fun f => is_ok (annotate f) = true) frame_list ->
  (forall text v, embed text = Ok v -> List.length v = dim) ->
  embed prompt = Ok pe -> pe <> [] ->
  (0 < top_n)%Z ->
  exists df res,
    df_frames (snd (run_cell frame_list g)) = Some df /\
    nrows df = List.length frame_list /\
    fst (search prompt top_n df) = Ok res /\
    nrows res = Nat.min (Z.to_nat top_n) (List.length frame_list).
Proof.
  intros Hne Hall Hdim He Hpe Hn.
  destruct (rmap_all_ok _ _ Hall) as [records Hr].
  pose proof (rmap_length _ _ _ Hr) as Hlen.
  assert (Hrec : records <> []).
  { intros ->. destruct frame_list; [congruence | discriminate]. }
  exists (DataFrame_of_records records).
  assert (Hcells : embeddings_of_dimension (List.length pe)
                     (map (fun d => VList (embedding d)) records)).
  { apply (rmap_pointwise _ (fun _ d => embed (caption d)
                                        = Ok (embedding d))) in Hr;
      [|intros f d Hd; apply (process_frame_steps f d Hd)].
    unfold embeddings_of_dimension. apply Forall_map.
    clear Hall Hlen Hrec Hne.
    induction Hr as [|f d fs ds Hd _ IH]; constructor; [|exact IH].
    exists (embedding d). split; [reflexivity|].
    rewrite (Hdim _ _ Hd). symmetry. exact (Hdim _ _ He). }
  destruct (similarity_cells_ok pe _ Hpe Hcells) as [sims Hs].
  destruct (search_frames_ok embeddings_create prompt top_n
              (DataFrame_of_records records) pe _ sims He
              (DataFrame_of_records_embedding records Hrec) Hs)
    as [keys [-> Hrun]].
  eexists. rewrite (annotation_cell_ok frame_list g records Hr).
  cbn [snd df_frames].
  split; [reflexivity|].
  split; [now rewrite DataFrame_of_records_nrows|].
  assert (Hok : fst (search prompt top_n (DataFrame_of_records records))
                = Ok (head (take (with_similarity
                                    (DataFrame_of_records records)
                                    (map VFloat keys))
                                 (nargsort_descending keys)) top_n))
    by now rewrite Hrun.
  split; [exact Hok|].
  rewrite (search_row_count prompt top_n _ _ ltac:(lia)
             (DataFrame_of_records_well_formed records) Hok).
  now rewrite DataFrame_of_records_nrows, Hlen.
Qed.

(** X20. With no frame to annotate the cell still succeeds, but the corpus
    it assigns has neither rows nor columns, and every search on it raises
    [KeyError('embedding')] once the query is embedded. *)
Theorem no_frames_give_an_unsearchable_corpus g prompt top_n pe :
  embed prompt = Ok pe ->
  exists df,
    run_cell [] g = (Ok tt, mkGlobals [] (Some df)) /\
    nrows df = 0 /\ columns df = [] /\
    fst (search prompt top_n df) = Raise (KeyError "embedding").
Proof.
  intros He. exists (DataFrame_of_records []).
  split; [reflexivity|]. split; [reflexivity|]. split; [reflexivity|].
  now rewrite search_frames_run, He.
Qed.

End PipelineExtras.

(** *** Runs of the further properties on the fixtures *)

Lemma two_frames_scores :
  rmap (similarity_to [1; 0]%R) [VList [0; 1]%R; VList [1; 0]%R]
  = Ok [VFloat 0; VFloat 1].
Proof.
  unfold rmap. now rewrite similarity_orthogonal, similarity_same_direction.
Qed.

Lemma two_frames_search_returns top_n :
  exists res,
    fst (@search_frames embed_unit stable_sorter "a garage" top_n two_frames)
    = Ok res.
Proof.
  destruct (@search_frames_ok embed_unit stable_sorter "a garage" top_n
              two_frames [1; 0]%R [VList [0; 1]%R; VList [1; 0]%R]
              [VFloat 0; VFloat 1] eq_refl eq_refl two_frames_scores)
    as [keys [_ Hrun]].
  rewrite Hrun. eexists. reflexivity.
Qed.

Lemma failed_search_leaves_the_corpus_untouched_witness :
  snd (@search_frames embed_unit stable_sorter "anything" 5
         (DataFrame_of_records []))
  = DataFrame_of_records [] /\
  (get_embedding embed_unit "anything" = Raise (KeyError "embedding") \/
   KeyError "embedding" = KeyError "embedding" \/
   exists msg, KeyError "embedding" = ValueError msg).
Proof.
  apply (@failed_search_leaves_the_corpus_untouched embed_unit stable_sorter
           "anything" 5 (DataFrame_of_records []) (KeyError "embedding")).
  reflexivity.
Defined.

Lemma earlier_searches_do_not_matter_witness :
  fst (@search_frames embed_unit stable_sorter "a car" 1
         (snd (@search_frames embed_unit stable_sorter "a garage" 5
                 two_frames)))
  = fst (@search_frames embed_unit stable_sorter "a car" 1 two_frames).
Proof.
  destruct (two_frames_search_returns 5) as [res Hres].
  exact (proj1 (@earlier_searches_do_not_matter embed_unit stable_sorter
                  "a garage" 5 "a car" 1 two_frames res Hres)).
Defined.

Lemma repeated_search_is_idempotent_witness :
  exists res,
    @search_frames embed_unit stable_sorter "a garage" 5
      (snd (@search_frames embed_unit stable_sorter "a garage" 5 two_frames))
    = (Ok res,
       snd (@search_frames embed_unit stable_sorter "a garage" 5 two_frames)).
Proof.
  destruct (two_frames_search_returns 5) as [res Hres].
  exists res.
  exact (@repeated_search_is_idempotent embed_unit stable_sorter "a garage" 5
           two_frames res Hres).
Defined.

Lemma search_keeps_the_table_shape_witness :
  map fst (columns (snd (@search_frames embed_unit stable_sorter "a garage" 5
                           two_frames)))
  = ["frame_filename"; "image_url"; "caption"; "embedding"; "similarity"].
Proof.
  destruct (two_frames_search_returns 5) as [res Hres].
  exact (proj1 (proj2 (proj2
           (@search_keeps_the_table_shape embed_unit stable_sorter "a garage"
              5 two_frames res two_frames_well_formed Hres)))).
Defined.

Lemma search_with_non_positive_top_n_witness :
  exists res,
    fst (@search_frames embed_unit stable_sorter "a garage" (-1) two_frames)
    = Ok res /\
    nrows res = 1.
Proof.
  destruct (two_frames_search_returns (-1)) as [res Hres].
  exists res. split; [exact Hres|].
  apply (@search_with_non_positive_top_n embed_unit stable_sorter "a garage"
           (-1) two_frames res).
  - lia.
  - exact two_frames_well_formed.
  - exact Hres.
Defined.

Lemma search_keeps_the_most_similar_rows_witness :
  exists keys kept dropped,
    lookup "similarity"
      (columns (snd (@search_frames embed_unit stable_sorter "a garage" 1
                       two_frames)))
    = Some (map VFloat keys) /\
    Permutation (kept ++ dropped) [0; 1] /\
    forall p q, In p kept -> In q dropped ->
      (nth q keys 0 <= nth p keys 0)%R.
Proof.
  destruct (two_frames_search_returns 1) as [res Hres].
  destruct (@search_keeps_the_most_similar_rows embed_unit stable_sorter
              "a garage" 1 two_frames res two_frames_well_formed Hres)
    as (keys & kept & dropped & Hk & _ & Hp & Hbest).
  exists keys, kept, dropped. auto.
Defined.

Lemma annotated_corpus_can_be_searched_witness :
  exists df res,
    df_frames (snd (annotation_cell embed_unit caption_ok upload_ok "bucket"
                      "region" three_frames no_globals)) = Some df /\
    nrows df = 3 /\
    fst (@search_frames embed_unit stable_sorter "a car" 2 df) = Ok res /\
    nrows res = 2.
Proof.
  apply (@annotated_corpus_can_be_searched embed_unit caption_ok upload_ok
           "bucket" "region" stable_sorter three_frames no_globals "a car" 2
           [1; 0]%R 2).
  - discriminate.
  - repeat constructor.
  - intros text v H. injection H as <-. reflexivity.
  - reflexivity.
  - discriminate.
  - lia.
Defined.

Lemma no_frames_give_an_unsearchable_corpus_witness :
  exists df,
    annotation_cell embed_unit caption_ok upload_ok "bucket" "region" []
      no_globals = (Ok tt, mkGlobals [] (Some df)) /\
    nrows df = 0 /\ columns df = [] /\
    fst (@search_frames embed_unit stable_sorter "anything" 5 df)
    = Raise (KeyError "embedding").
Proof.
  apply (@no_frames_give_an_unsearchable_corpus embed_unit caption_ok
           upload_ok "bucket" "region" stable_sorter no_globals "anything" 5
           [1; 0]%R).
  reflexivity.
Defined.
